(** * The websocket subscription handler (api/src/websocket/handlers/subscribe.ts)

    A shallow embedding of [SubscribeHandler]: the registry of subscriptions
    per collection, the (un)subscribe requests of a client, the dispatch of a
    mutation event to the registered subscriptions and the action hooks that
    publish these events on the messenger.

    Modelling conventions.
    - A JavaScript object used as a dictionary is an association list in
      property order (array indices ascending, then the other keys in creation
      order).  The registry [this.subscriptions] starts as the literal [{}]:
      read under a name it has no key for, it answers with the member of that
      name every object inherits from [Object.prototype], when there is
      one.
    - A [Set<Subscription>] is a list in insertion order; a subscription
      object carries the identity [ref] it was allocated with, and [Set.add] /
      [Set.delete] go by that identity.
    - A client is known by its identity; the mutable field
      [client.accountability] lives in the state, so that two subscriptions
      of one client share it.
    - The services the handler calls (schema, accountability refresh, item
      and meta reads, query sanitizing) are the fields of the class [Env];
      they run on an opaque [World] that they may change, and they may throw.
    - Every call that leaves the handler is recorded, in order, in a trace of
      [Effect]s.  Each handler runs to completion before the next one starts:
      the interleaving of [await] points is not modelled. *)

From Stdlib Require Import List String Ascii ZArith NArith Bool Lia PeanoNat.
Import ListNotations.
Local Open Scope string_scope.
Local Open Scope list_scope.
Local Open Scope nat_scope.

Set Implicit Arguments.
Set Warnings "-register-all".

(** ** JavaScript objects as ordered dictionaries *)

Module JsObject.

Definition digit (c : ascii) : option N :=
  let n := N_of_ascii c in
  if ((48 <=? n) && (n <=? 57))%N then Some (n - 48)%N else None.

Fixpoint digits (s : string) (acc : N) : option N :=
  match s with
  | EmptyString => Some acc
  | String c s' =>
      match digit c with
      | Some d => digits s' (acc * 10 + d)%N
      | None => None
      end
  end.

(** The canonical numeric strings below 2^32 - 1 are array indices. *)
Definition array_index (s : string) : option N :=
  match s with
  | EmptyString => None
  | String "0"%char EmptyString => Some 0%N
  | String "0"%char _ => None
  | _ =>
      match digits s 0 with
      | Some n => if (n <? 4294967295)%N then Some n else None
      | None => None
      end
  end.

(** [precedes k k'] : a new key [k] is enumerated before the key [k']. *)
Definition precedes (k k' : string) : bool :=
  match array_index k, array_index k' with
  | Some n, Some n' => (n <? n')%N
  | Some _, None => true
  | None, _ => false
  end.

Section Ops.
Context {V : Type}.

Definition t := list (string * V).

(** [o[k]], [None] standing for [undefined]. *)
Fixpoint get (o : t) (k : string) : option V :=
  match o with
  | [] => None
  | (k', v) :: o' => if String.eqb k' k then Some v else get o' k
  end.

(** [k in o] *)
Definition has (k : string) (o : t) : bool :=
  match get o k with Some _ => true | None => false end.

Fixpoint replace (k : string) (v : V) (o : t) : t :=
  match o with
  | [] => []
  | (k', v') :: o' =>
      if String.eqb k' k then (k, v) :: o' else (k', v') :: replace k v o'
  end.

Fixpoint create (k : string) (v : V) (o : t) : t :=
  match o with
  | [] => [(k, v)]
  | (k', v') :: o' =>
      if precedes k k' then (k, v) :: (k', v') :: o'
      else (k', v') :: create k v o'
  end.

(** [o[k] = v] *)
Definition set (k : string) (v : V) (o : t) : t :=
  if has k o then replace k v o else create k v o.

(** [Object.keys(o)] and [Object.values(o)] *)
Definition keys (o : t) : list string := map fst o.
Definition values (o : t) : list V := map snd o.
End Ops.

Arguments t : clear implicits.

End JsObject.

(** ** JavaScript values *)

Inductive Json : Type :=
| JUndefined
| JNull
| JBool (b : bool)
| JNum (z : Z)
| JStr (s : string)
| JArr (l : list Json)
| JObj (o : list (string * Json)).

Definition JsRecord := JsObject.t Json.

(** [o.k] on a record, [undefined] when the property is missing. *)
Definition prop (o : JsRecord) (k : string) : Json :=
  match JsObject.get o k with Some v => v | None => JUndefined end.

(** [a ?? b] *)
Definition nullish (a b : Json) : Json :=
  match a with
  | JUndefined | JNull => b
  | _ => a
  end.

(** ** Strings: [s.split('.')] and [Array.prototype.pop] *)

Fixpoint split_from (sep : ascii) (cur : string) (s : string) : list string :=
  match s with
  | EmptyString => [cur]
  | String c s' =>
      if Ascii.eqb c sep then cur :: split_from sep EmptyString s'
      else split_from sep (cur ++ String c EmptyString)%string s'
  end.

Definition split (sep : ascii) (s : string) : list string :=
  split_from sep EmptyString s.

Fixpoint pop {A : Type} (l : list A) : option A :=
  match l with
  | [] => None
  | [x] => Some x
  | _ :: l' => pop l'
  end.

Fixpoint no_dot (s : string) : bool :=
  match s with
  | EmptyString => true
  | String c s' => negb (Ascii.eqb c ".") && no_dot s'
  end.

(** ** Data of the handler *)

Definition Client := nat.

Inductive PrimaryKey : Type :=
| KStr (s : string)
| KNum (n : Z).

(** [type Subscription] of websocket/types: the owning client, the collection
    and the optional [query], [item] and [uid] properties; [ref] is the
    identity of the object. *)
Record Subscription : Type := mkSubscription {
  ref : nat;
  client : Client;
  collection : string;
  query : option JsRecord;
  item : option PrimaryKey;
  uid : option string
}.

Definition Registry := JsObject.t (list Subscription).

(** [Set.prototype.add] and [Set.prototype.delete], by object identity. *)
Definition set_add (s : Subscription) (l : list Subscription) : list Subscription :=
  if existsb (fun x => ref x =? ref s) l then l else l ++ [s].

Definition set_delete (s : Subscription) (l : list Subscription) : list Subscription :=
  filter (fun x => negb (ref x =? ref s)) l.

(** [a === b] on optional strings. *)
Definition uid_eqb (a b : option string) : bool :=
  match a, b with
  | Some x, Some y => String.eqb x y
  | None, None => true
  | _, _ => false
  end.

(** Truthiness of an optional string: [undefined] and the empty string are falsy. *)
Definition truthy (a : option string) : bool :=
  match a with
  | None => false
  | Some EmptyString => false
  | Some _ => true
  end.

Module Subscriptions.

(** The names of the members of [Object.prototype], which the registry, made
    as [{}], inherits. *)
Definition inherited (k : string) : bool :=
  existsb (String.eqb k)
    [ "constructor"; "__defineGetter__"; "__defineSetter__"; "hasOwnProperty";
      "__lookupGetter__"; "__lookupSetter__"; "isPrototypeOf";
      "propertyIsEnumerable"; "toString"; "valueOf"; "__proto__";
      "toLocaleString" ].

(** What [this.subscriptions[k]] is: a set of the registry, a member
    inherited from [Object.prototype] (a function, or the prototype itself
    for [__proto__]; truthy, neither iterable nor with an [add] method), or
    [undefined]. *)
Inductive Slot : Type :=
| Own (l : list Subscription)
| Inherited
| Missing.

(** [this.subscriptions[k]] *)
Definition read (subs : Registry) (k : string) : Slot :=
  match JsObject.get subs k with
  | Some l => Own l
  | None => if inherited k then Inherited else Missing
  end.

(** The set the registry holds of its own under the key [c], none standing
    for the empty set: [this.subscriptions[key] || []] for a key of
    [Object.keys(this.subscriptions)], as [unsubscribe] reads it.  The read
    of [dispatch] under the collection of an event is [read]. *)
Definition subscribersOf (subs : Registry) (c : string) : list Subscription :=
  match JsObject.get subs c with Some l => l | None => [] end.

(** [subscribe(subscription)]; [None] when
    [this.subscriptions[collection]?.add] is called on an inherited member
    and throws a [TypeError]. *)
Definition subscribe (s : Subscription) (subs : Registry) : option Registry :=
  let subs1 :=
    match read subs (collection s) with
    | Missing => JsObject.set (collection s) [] subs
    | Own _ | Inherited => subs
    end in
  match read subs1 (collection s) with
  | Own l => Some (JsObject.set (collection s) (set_add s l) subs1)
  | Inherited => None
  | Missing => Some subs1
  end.

(** [getSubscription(uid)]: the first subscription carrying [uid], over the
    collections in key order and each set in insertion order. *)
Definition getSubscription (u : string) (subs : Registry) : option Subscription :=
  find (fun s => uid_eqb (uid s) (Some u)) (List.concat (JsObject.values subs)).

(** [this.subscriptions[key]?.delete(subscription)], for a key the registry
    holds: the key being swept, or the collection of a subscription found in
    the registry. *)
Definition delete_at (key : string) (s : Subscription) (subs : Registry) : Registry :=
  match JsObject.get subs key with
  | Some l => JsObject.set key (set_delete s l) subs
  | None => subs
  end.

(** The inner loop of [unsubscribe] over the snapshot of one set, from its
    last element to its first. *)
Definition sweep (c : Client) (u : option string) (key : string)
    (subs : Registry) : Registry :=
  fold_left
    (fun acc s =>
       if (client s =? c) && (negb (truthy u) || uid_eqb (uid s) u)
       then delete_at key s acc else acc)
    (rev (subscribersOf subs key)) subs.

(** [unsubscribe(client, uid)] *)
Definition unsubscribe (c : Client) (u : option string) (subs : Registry) : Registry :=
  match u with
  | Some x =>
      match getSubscription x subs with
      | Some s => if client s =? c then delete_at (collection s) s subs else subs
      | None => subs
      end
  | None =>
      fold_left (fun acc key => sweep c u key acc) (JsObject.keys subs) subs
  end.

End Subscriptions.

(** ** What holds of a registry the handler built *)

Module Invariants.
Import JsObject Subscriptions.

(** The registry with [s] added to the set of its collection, made if need
    be: what [subscribe] leaves when it does not throw. *)
Definition added (s : Subscription) (subs : Registry) : Registry :=
  let subs1 :=
    match JsObject.get subs (collection s) with
    | None => JsObject.set (collection s) [] subs
    | Some _ => subs
    end in
  match JsObject.get subs1 (collection s) with
  | Some l => JsObject.set (collection s) (set_add s l) subs1
  | None => subs1
  end.

(** Reading the registry under [k] does not end at an inherited member. *)
Definition accepts (subs : Registry) (k : string) : bool :=
  match read subs k with
  | Inherited => false
  | Own _ | Missing => true
  end.

(** The subscriptions of a set that a client other than [c] owns. *)
Definition kept (c : Client) (s : Subscription) : bool := negb (client s =? c).

(** No two subscriptions of a set are the same object. *)
Fixpoint distinct (l : list nat) : bool :=
  match l with
  | [] => true
  | x :: l' => negb (existsb (Nat.eqb x) l') && distinct l'
  end.

Definition sets_ok (subs : Registry) : bool :=
  forallb (fun e => distinct (map ref (snd e))) subs.

(** Every set of the registry holds distinct objects. *)
Definition sets_distinct (subs : Registry) : Prop :=
  forall k l, get subs k = Some l -> distinct (map ref l) = true.

(** A subscription not yet allocated is in no set. *)
Definition refs_below (n : nat) (subs : Registry) : Prop :=
  forall k s, In s (subscribersOf subs k) -> ref s < n.

(** A subscription sits under the key of its collection. *)
Definition keyed (subs : Registry) : Prop :=
  forall k s, In s (subscribersOf subs k) -> collection s = k.

(** The registry of a handler that allocated [n] subscription objects. *)
Definition well_formed (n : nat) (subs : Registry) : Prop :=
  sets_distinct subs /\ refs_below n subs /\ keyed subs.

(** A subscription is in the registry. *)
Definition registered (subs : Registry) (s : Subscription) : Prop :=
  exists k, In s (subscribersOf subs k).

(** A well formed registry whose keys are the keys of an object: no key
    twice. *)
Definition sound (n : nat) (subs : Registry) : Prop :=
  well_formed n subs /\ NoDup (keys subs).

Definition owned_by (c : Client) (s : Subscription) : bool := client s =? c.

(** [refs_below], as a test. *)
Definition refs_ok (n : nat) (subs : Registry) : bool :=
  forallb (fun e => forallb (fun s => ref s <? n) (snd e)) subs.

End Invariants.

(** ** The services around the handler *)

(** The collaborators of the handler that live in other modules: [getSchema]
    (utils/get-schema), [refreshAccountability] (websocket/authenticate),
    [sanitizeQuery] (utils/sanitize-query), [ItemsService.readOne] and
    [readByQuery], [MetaService.getMetaForQuery].  A service takes what the
    handler passes to it and the world it runs in; it answers with a value or
    throws, and leaves a world behind. *)
Class Env : Type := {
  World : Type;
  Accountability : Type;
  SchemaOverview : Type;
  Error : Type;
  (** [accountability.admin] *)
  admin : Accountability -> bool;
  (** truthiness of [schema.collections[collection]] *)
  collections : SchemaOverview -> string -> bool;
  getSchema : World -> (Error + SchemaOverview) * World;
  refreshAccountability :
    option Accountability -> World -> (Error + option Accountability) * World;
  sanitizeQuery : JsRecord -> option Accountability -> Error + JsRecord;
  readOne :
    string -> SchemaOverview -> option Accountability ->
    PrimaryKey -> JsRecord -> World -> (Error + Json) * World;
  readByQuery :
    string -> SchemaOverview -> option Accountability ->
    JsRecord -> World -> (Error + Json) * World;
  getMetaForQuery :
    string -> SchemaOverview -> option Accountability ->
    JsRecord -> World -> (Error + Json) * World
}.

(** What [fmtMessage(type, data, uid)] is given; the frame a client is sent. *)
Record Frame : Type := fmtMessage {
  frame_type : string;
  frame_data : JsRecord;
  frame_uid : option string
}.

Section Handler.
Context {env : Env}.

(** What can be thrown inside the handler: its own [WebSocketException] or
    whatever a service throws. *)
Inductive Exception : Type :=
| WebSocketException (type code message : string) (u : option string)
| TypeError (message : string)
| Thrown (e : Error).

(** The two [TypeError]s an inherited member gives rise to: iterated in
    [dispatch], asked for [add] in [subscribe]. *)
Definition not_iterable : Exception :=
  TypeError "subscriptions is not iterable".

Definition add_is_not_a_function : Exception :=
  TypeError "this.subscriptions[collection]?.add is not a function".

(** The calls that leave the handler. *)
Inductive Effect : Type :=
| CallRefresh (a : option Accountability)
| CallGetSchema
| CallReadOne (c : string) (sch : SchemaOverview) (a : option Accountability)
    (id : PrimaryKey) (q : JsRecord)
| CallReadByQuery (c : string) (sch : SchemaOverview) (a : option Accountability)
    (q : JsRecord)
| CallGetMeta (c : string) (sch : SchemaOverview) (a : option Accountability)
    (q : JsRecord)
| Send (c : Client) (f : Frame)
| HandleException (c : Client) (e : Exception) (type : string)
| Publish (topic : string) (message : JsRecord).

(** The handler's own fields, the accountability field of every client, the
    allocator of object identities and the world of the services. *)
Record State : Type := mkState {
  subscriptions : Registry;
  accountability : Client -> option Accountability;
  next_ref : nat;
  world : World
}.

Definition with_subscriptions (r : Registry) (st : State) : State :=
  mkState r (accountability st) (next_ref st) (world st).

Definition with_world (w : World) (st : State) : State :=
  mkState (subscriptions st) (accountability st) (next_ref st) w.

Definition with_accountability (c : Client) (a : option Accountability)
    (st : State) : State :=
  mkState (subscriptions st)
    (fun c' => if c' =? c then a else accountability st c')
    (next_ref st) (world st).

(** *** A monad for state, exceptions and the trace of effects *)

Inductive Result (A : Type) : Type :=
| Ok (a : A)
| Throw (e : Exception).
Arguments Throw {A} e.

Definition M (A : Type) : Type := State -> Result A * State * list Effect.

Definition ret {A} (a : A) : M A := fun st => (Ok a, st, []).

Definition bind {A B} (m : M A) (f : A -> M B) : M B :=
  fun st =>
    match m st with
    | (Ok a, st1, t1) =>
        let '(r, st2, t2) := f a st1 in (r, st2, t1 ++ t2)
    | (Throw e, st1, t1) => (Throw e, st1, t1)
    end.

Definition throw {A} (e : Exception) : M A := fun st => (Throw e, st, []).

(** [try { m } catch (err) { h err }] *)
Definition try_catch {A} (m : M A) (h : Exception -> M A) : M A :=
  fun st =>
    match m st with
    | (Throw e, st1, t1) =>
        let '(r, st2, t2) := h e st1 in (r, st2, t1 ++ t2)
    | done => done
    end.

Definition gets {A} (f : State -> A) : M A := fun st => (Ok (f st), st, []).
Definition modify (f : State -> State) : M unit := fun st => (Ok tt, f st, []).
Definition effect (e : Effect) : M unit := fun st => (Ok tt, st, [e]).

(** A call of a service: recorded, run on the world, its exception rethrown. *)
Definition call {A} (e : Effect) (f : World -> (Error + A) * World) : M A :=
  fun st =>
    match f (world st) with
    | (inr a, w) => (Ok a, with_world w st, [e])
    | (inl x, w) => (Throw (Thrown x), with_world w st, [e])
    end.

Notation "x <- m ;; k" := (bind m (fun x => k))
  (at level 61, m at next level, right associativity).
Notation "m ;;; k" := (bind m (fun _ => k))
  (at level 61, right associativity).

Definition run {A} (m : M A) (st : State) : Result A * State * list Effect := m st.
Definition result_of {A} (x : Result A * State * list Effect) : Result A := fst (fst x).
Definition state_of {A} (x : Result A * State * list Effect) : State := snd (fst x).
Definition trace_of {A} (x : Result A * State * list Effect) : list Effect := snd x.

(** *** The events of the messenger *)

Inductive Action : Type := create | update | delete.

Definition action_name (a : Action) : string :=
  match a with
  | create => "create"
  | update => "update"
  | delete => "delete"
  end.

(** [type WebSocketEvent]: a create event carries [key], update and delete
    events carry [keys]; all carry the collection and, optionally, a payload. *)
Inductive WebSocketEvent : Type :=
| WebSocketCreateEvent (coll : string) (payload : option JsRecord)
    (key : PrimaryKey)
| WebSocketUpdateEvent (coll : string) (payload : option JsRecord)
    (keys : list PrimaryKey)
| WebSocketDeleteEvent (coll : string) (payload : option JsRecord)
    (keys : list PrimaryKey).

(** [event.action] and [event.collection] *)
Definition event_action (ev : WebSocketEvent) : Action :=
  match ev with
  | WebSocketCreateEvent _ _ _ => create
  | WebSocketUpdateEvent _ _ _ => update
  | WebSocketDeleteEvent _ _ _ => delete
  end.

Definition event_collection (ev : WebSocketEvent) : string :=
  match ev with
  | WebSocketCreateEvent c _ _
  | WebSocketUpdateEvent c _ _
  | WebSocketDeleteEvent c _ _ => c
  end.

(** *** Payloads *)

(** [subscription.query ?? {}] *)
Definition query_of (s : Subscription) : JsRecord :=
  match query s with Some q => q | None => [] end.

(** [getSinglePayload(subscription, accountability, schema, event)]; the key
    [subscription.item!] is the one its caller found with
    ['item' in subscription]. *)
Definition getSinglePayload (s : Subscription) (id : PrimaryKey)
    (a : option Accountability) (sch : SchemaOverview) (event : string)
    : M JsRecord :=
  let q := query_of s in
  let result := [("event", JStr event)] in
  payload <- call (CallReadOne (collection s) sch a id q)
                  (readOne (collection s) sch a id q) ;;
  let result := JsObject.set "payload" payload result in
  if JsObject.has "meta" q then
    meta <- call (CallGetMeta (collection s) sch a q)
                 (getMetaForQuery (collection s) sch a q) ;;
    ret (JsObject.set "meta" meta result)
  else ret result.

(** [getMultiPayload(subscription, accountability, schema, event)] *)
Definition getMultiPayload (s : Subscription)
    (a : option Accountability) (sch : SchemaOverview) (event : string)
    : M JsRecord :=
  let q := query_of s in
  let result := [("event", JStr event)] in
  payload <- call (CallReadByQuery (collection s) sch a q)
                  (readByQuery (collection s) sch a q) ;;
  let result := JsObject.set "payload" payload result in
  if JsObject.has "meta" q then
    meta <- call (CallGetMeta (collection s) sch a q)
                 (getMetaForQuery (collection s) sch a q) ;;
    ret (JsObject.set "meta" meta result)
  else ret result.

(** ['item' in subscription ? getSinglePayload(..) : getMultiPayload(..)] *)
Definition getPayload (s : Subscription)
    (a : option Accountability) (sch : SchemaOverview) (event : string)
    : M JsRecord :=
  match item s with
  | Some id => getSinglePayload s id a sch event
  | None => getMultiPayload s a sch event
  end.

(** [client.send(frame)] and [handleWebsocketException(client, err, type)]
    (websocket/exceptions), which reports the error to the client. *)
Definition send (c : Client) (f : Frame) : M unit := effect (Send c f).

Definition handleWebsocketException (c : Client) (e : Exception) (type : string)
    : M unit :=
  effect (HandleException c e type).

(** *** dispatch *)

(** The body of the [try] block of [dispatch], for one subscription. *)
Definition deliver (s : Subscription) (ev : WebSocketEvent) : M unit :=
  old <- gets (fun st => accountability st (client s)) ;;
  fresh <- call (CallRefresh old) (refreshAccountability old) ;;
  modify (with_accountability (client s) fresh) ;;;
  schema <- call CallGetSchema getSchema ;;
  a <- gets (fun st => accountability st (client s)) ;;
  result <- getPayload s a schema (action_name (event_action ev)) ;;
  send (client s) (fmtMessage "subscription" result (uid s)).

(** One turn of the loop of [dispatch]. *)
Definition attempt (s : Subscription) (ev : WebSocketEvent) : M unit :=
  try_catch (deliver s ev)
    (fun err => handleWebsocketException (client s) err "subscribe").

Fixpoint dispatch_loop (l : list Subscription) (ev : WebSocketEvent) : M unit :=
  match l with
  | [] => ret tt
  | s :: l' => attempt s ev ;;; dispatch_loop l' ev
  end.

(** [dispatch(event)] *)
Definition dispatch (ev : WebSocketEvent) : M unit :=
  slot <- gets (fun st =>
            Subscriptions.read (subscriptions st) (event_collection ev)) ;;
  match slot with
  | Subscriptions.Own subs => dispatch_loop subs ev
  | Subscriptions.Missing => dispatch_loop [] ev
  | Subscriptions.Inherited => throw not_iterable
  end.

(** *** onMessage *)

(** [WebSocketSubscribeMessage] of websocket/messages, after parsing. *)
Inductive WebSocketSubscribeMessage : Type :=
| SUBSCRIBE (c : string) (it : option PrimaryKey) (q : option JsRecord)
    (u : option string)
| UNSUBSCRIBE (u : option string).

Definition unsubscribe (c : Client) (u : option string) : M unit :=
  modify (fun st =>
    with_subscriptions (Subscriptions.unsubscribe c u (subscriptions st)) st).

Definition subscribe (s : Subscription) : M unit :=
  fun st =>
    match Subscriptions.subscribe s (subscriptions st) with
    | Some subs => (Ok tt, with_subscriptions subs st, [])
    | None => (Throw add_is_not_a_function, st, [])
    end.

(** [accountability?.admin] *)
Definition is_admin (a : option Accountability) : bool :=
  match a with Some x => admin x | None => false end.

(** A new object: the identity the object literal [{ client, collection }]
    comes with. *)
Definition new_object : M nat :=
  fun st =>
    (Ok (next_ref st),
     mkState (subscriptions st) (accountability st) (S (next_ref st)) (world st),
     []).

(** The body of the [try] block of the SUBSCRIBE branch. *)
Definition on_subscribe (c : Client) (coll : string) (it : option PrimaryKey)
    (q : option JsRecord) (u : option string) : M unit :=
  a <- gets (fun st => accountability st c) ;;
  schema <- call CallGetSchema getSchema ;;
  if negb (is_admin a) && negb (collections schema coll) then
    throw (WebSocketException "subscribe" "INVALID_COLLECTION"
             "The provided collection does not exists or is not accessible." u)
  else
    id <- new_object ;;
    q' <- match q with
          | Some raw =>
              match sanitizeQuery raw a with
              | inr clean => ret (Some clean)
              | inl x => throw (Thrown x)
              end
          | None => ret None
          end ;;
    let s := mkSubscription id c coll q' it u in
    unsubscribe c (uid s) ;;;
    data <- getPayload s a schema "init" ;;
    subscribe s ;;;
    match item s with
    | None => send c (fmtMessage "subscription" data (uid s))
    | Some _ => ret tt
    end.

(** [onMessage(client, message)] *)
Definition onMessage (c : Client) (m : WebSocketSubscribeMessage) : M unit :=
  match m with
  | SUBSCRIBE coll it q u =>
      try_catch (on_subscribe c coll it q u)
        (fun err => handleWebsocketException c err "subscribe")
  | UNSUBSCRIBE u => unsubscribe c u
  end.

(** [message.uid] *)
Definition message_uid (m : WebSocketSubscribeMessage) : option string :=
  match m with
  | SUBSCRIBE _ _ _ u => u
  | UNSUBSCRIBE u => u
  end.

(** The listeners of [bindWebsocket] on a dropped connection. *)
Definition onClose (c : Client) : M unit := unsubscribe c None.

(** *** bindModules *)

(** An action hook registered on the emitter: the event it listens to and the
    mutator its closure holds. *)
Record Hook : Type := bindAction {
  hook_event : string;
  hook_mutator : option (JsRecord -> JsRecord)
}.

(** The message the hook builds when it fires with [args]. *)
Definition hook_message (h : Hook) (args : JsRecord) : JsRecord :=
  let message :=
    match hook_mutator h with Some mutator => mutator args | None => [] end in
  let message :=
    JsObject.set "action"
      (match pop (split "." (hook_event h)) with
       | Some a => JStr a
       | None => JUndefined
       end) message in
  let message := JsObject.set "collection" (prop args "collection") message in
  JsObject.set "payload" (nullish (prop args "payload") (JObj [])) message.

Definition fire (h : Hook) (args : JsRecord) : M unit :=
  effect (Publish "websocket.event" (hook_message h args)).

(** The hooks [bindModules(modules)] registers, in order. *)
Definition bindModules (modules : list string) : list Hook :=
  flat_map
    (fun module =>
       [ bindAction (module ++ ".create")
           (Some (fun args => [("key", prop args "key")]));
         bindAction (module ++ ".update")
           (Some (fun args => [("keys", prop args "keys")]));
         bindAction (module ++ ".delete")
           (Some (fun args => [("keys", prop args "keys")])) ])
    modules.

(** [emitter.emitAction(event, args)]: every hook bound to [event] fires. *)
Fixpoint emitAction (hooks : list Hook) (event : string) (args : JsRecord) : M unit :=
  match hooks with
  | [] => ret tt
  | h :: hooks' =>
      (if String.eqb (hook_event h) event then fire h args else ret tt) ;;;
      emitAction hooks' event args
  end.

(** The modules the constructor binds. *)
Definition modules : list string :=
  [ "items"; "activity"; "collections"; "fields"; "files"; "folders";
    "permissions"; "presets"; "relations"; "revisions"; "roles"; "settings";
    "users"; "webhooks" ].

(** *** What happens to a handler *)

Inductive Step : Type :=
| Message (c : Client) (m : WebSocketSubscribeMessage)
| Closed (c : Client)
| Event (ev : WebSocketEvent).

Definition step (x : Step) : M unit :=
  match x with
  | Message c m => onMessage c m
  | Closed c => onClose c
  | Event ev => dispatch ev
  end.

Fixpoint steps (l : list Step) : M unit :=
  match l with
  | [] => ret tt
  | x :: l' => try_catch (step x) (fun _ => ret tt) ;;; steps l'
  end.

(** *** Observations on runs and traces *)

(** The reads behind a payload, run on a world alone. *)
Definition reads (s : Subscription) (a : option Accountability)
    (sch : SchemaOverview) (event : string) (w : World)
    : Result JsRecord * World * list Effect :=
  let x := run (getPayload s a sch event) (mkState [] (fun _ => None) 0 w) in
  (result_of x, world (state_of x), trace_of x).

(** The subscription object a SUBSCRIBE request builds in state [st]. *)
Definition candidate (st : State) (c : Client) (coll : string)
    (q : option JsRecord) (it : option PrimaryKey) (u : option string)
    : Subscription :=
  mkSubscription (next_ref st) c coll q it u.

(** The calls of services, as opposed to what is said to a client or
    published. *)
Definition is_call (e : Effect) : bool :=
  match e with
  | Send _ _ | HandleException _ _ _ | Publish _ _ => false
  | _ => true
  end.

(** The clients that are answered, by a frame or by an error report. *)
Definition responses (t : list Effect) : list Client :=
  flat_map
    (fun e =>
       match e with
       | Send c _ => [c]
       | HandleException c _ _ => [c]
       | _ => []
       end) t.

(** The frames pushed to clients. *)
Definition pushes (t : list Effect) : list (Client * Frame) :=
  flat_map (fun e => match e with Send c f => [(c, f)] | _ => [] end) t.

(** An effect made on behalf of the subscription [s]. *)
Definition about (s : Subscription) (e : Effect) : Prop :=
  match e with
  | CallRefresh _ | CallGetSchema => True
  | CallReadOne c _ _ id q =>
      c = collection s /\ item s = Some id /\ q = query_of s
  | CallReadByQuery c _ _ q =>
      c = collection s /\ item s = None /\ q = query_of s
  | CallGetMeta c _ _ q => c = collection s /\ q = query_of s
  | Send c f =>
      c = client s /\ frame_uid f = uid s /\ frame_type f = "subscription"
  | HandleException c _ _ => c = client s
  | Publish _ _ => False
  end.

(** A read, if the effect is one, is a read of the collection [coll]. *)
Definition reads_only (coll : string) (e : Effect) : Prop :=
  match e with
  | CallReadOne c _ _ _ _ | CallReadByQuery c _ _ _ | CallGetMeta c _ _ _ =>
      c = coll
  | _ => True
  end.

(** A read made under the accountability [a] and the schema [sch]. *)
Definition read_under (a : option Accountability) (sch : SchemaOverview)
    (e : Effect) : Prop :=
  match e with
  | CallReadOne _ sch' a' _ _
  | CallReadByQuery _ sch' a' _
  | CallGetMeta _ sch' a' _ => sch' = sch /\ a' = a
  | _ => False
  end.

(** How a turn of [dispatch] ends for [s]: a frame, or the error reported. *)
Definition outcome (s : Subscription) (r : Result JsRecord) : Effect :=
  match r with
  | Ok res => Send (client s) (fmtMessage "subscription" res (uid s))
  | Throw e => HandleException (client s) e "subscribe"
  end.

(** [!accountability?.admin && !schema.collections[collection]] is false. *)
Definition valid_collection (a : option Accountability) (sch : SchemaOverview)
    (coll : string) : bool :=
  negb (negb (is_admin a) && negb (collections sch coll)).

(** The query of a SUBSCRIBE request sanitizes to [q']. *)
Definition sanitized (q : option JsRecord) (a : option Accountability)
    (q' : option JsRecord) : Prop :=
  match q with
  | Some raw => exists clean, sanitizeQuery raw a = inr clean /\ q' = Some clean
  | None => q' = None
  end.

(** A read, if the effect is one, is made under the accountability [a]. *)
Definition reads_as (a : option Accountability) (e : Effect) : Prop :=
  match e with
  | CallReadOne _ _ a' _ _ | CallReadByQuery _ _ a' _ | CallGetMeta _ _ a' _ =>
      a' = a
  | _ => True
  end.

(** The call that reads the payload of [s], and the call for its meta. *)
Definition read_call (s : Subscription) (a : option Accountability)
    (sch : SchemaOverview) : Effect :=
  match item s with
  | Some id => CallReadOne (collection s) sch a id (query_of s)
  | None => CallReadByQuery (collection s) sch a (query_of s)
  end.

Definition meta_call (s : Subscription) (a : option Accountability)
    (sch : SchemaOverview) : Effect :=
  CallGetMeta (collection s) sch a (query_of s).

(** The calls of [refreshAccountability] and of [getSchema]. *)
Definition is_refresh (e : Effect) : bool :=
  match e with CallRefresh _ => true | _ => false end.

Definition is_schema (e : Effect) : bool :=
  match e with CallGetSchema => true | _ => false end.

(** What is published on the messenger. *)
Definition publishes (t : list Effect) : list (string * JsRecord) :=
  flat_map (fun e => match e with Publish topic m => [(topic, m)] | _ => [] end) t.

(** The frames pushed to the client [c]. *)
Definition pushes_to (c : Client) (t : list Effect) : list (Client * Frame) :=
  filter (fun p => fst p =? c) (pushes t).

End Handler.

Arguments Ok {env A} a.
Arguments Throw {env A} e.

Notation "x <- m ;; k" := (bind m (fun x => k))
  (at level 61, m at next level, right associativity).
Notation "m ;;; k" := (bind m (fun _ => k))
  (at level 61, right associativity).

(** ** A small environment to run the handler in *)

Module Demo.

(** The world holds the name of article 42, if the article exists, and a
    switch that lets every read be refused. *)
Record Db : Type := mkDb {
  name42 : option string;
  readable : bool
}.

Definition is42 (id : PrimaryKey) : bool :=
  match id with KNum 42 => true | _ => false end.

Definition article (name : string) : Json :=
  JObj [("id", JNum 42); ("name", JStr name)].

#[export] Instance demo : Env := {|
  World := Db;
  Accountability := bool;
  SchemaOverview := list string;
  Error := string;
  admin := fun a => a;
  collections := fun sch c => existsb (String.eqb c) sch;
  getSchema := fun w => (inr ["articles"; "authors"], w);
  refreshAccountability := fun a w => (inr a, w);
  sanitizeQuery := fun q _ => inr q;
  readOne := fun c _ _ id _ w =>
    match name42 w with
    | Some name =>
        if readable w && is42 id && String.eqb c "articles"
        then (inr (article name), w) else (inl "FORBIDDEN", w)
    | None => (inl "FORBIDDEN", w)
    end;
  readByQuery := fun _ _ _ _ w =>
    if readable w then (inr (JArr []), w) else (inl "FORBIDDEN", w);
  getMetaForQuery := fun _ _ _ _ w => (inr (JObj []), w)
|}.

Definition db0 : Db := mkDb (Some "a") true.

(** No subscription yet, nobody authenticated. *)
Definition st0 : State := mkState [] (fun _ => None) 0 db0.

Definition alice : Client := 1.
Definition bob : Client := 2.

(** Alice, then Bob, subscribe to the articles under the uid "a". *)
Definition subscribe_a : WebSocketSubscribeMessage :=
  SUBSCRIBE "articles" None None (Some "a").

Definition st1 : State := state_of (run (onMessage alice subscribe_a) st0).
Definition st2 : State := state_of (run (onMessage bob subscribe_a) st1).

(** Bob subscribes again under the same uid. *)
Definition st3 : State := state_of (run (onMessage bob subscribe_a) st2).

(** The same request when the reads are refused. *)
Definition st2_refused : State := with_world (mkDb (Some "a") false) st2.

(** Bob watches article 42 under the uid "x"; later the article is renamed. *)
Definition watch42 : WebSocketSubscribeMessage :=
  SUBSCRIBE "articles" (Some (KNum 42)) None (Some "x").

Definition db_renamed : Db := mkDb (Some "b") true.

Definition updated42 : WebSocketEvent :=
  WebSocketUpdateEvent "articles" None [KNum 42].

(** Alice watches article 42, Bob the whole collection; then the article is
    deleted. *)
Definition st_watchers : State :=
  state_of (run (onMessage bob (SUBSCRIBE "articles" None None (Some "y")))
    (state_of (run (onMessage alice watch42) st0))).

Definition db_deleted : Db := mkDb None true.

Definition deleted42 : WebSocketEvent :=
  WebSocketDeleteEvent "articles" None [KNum 42].

Definition st_deleted : State := with_world db_deleted st_watchers.

Definition alice_watch : Subscription :=
  mkSubscription 0 alice "articles" None (Some (KNum 42)) (Some "x").

Definition bob_list : Subscription :=
  mkSubscription 1 bob "articles" None None (Some "y").

Definition schema0 : list string := ["articles"; "authors"].

Definition alice_a : Subscription :=
  mkSubscription 0 alice "articles" None None (Some "a").

(** Bob is about to subscribe to the authors under the uid "b". *)
Definition bob_authors : Subscription :=
  mkSubscription 2 bob "authors" None None (Some "b").

(** A subscription whose query asks for the meta. *)
Definition with_meta : Subscription :=
  mkSubscription 0 alice "articles" (Some [("meta", JStr "*")]) None None.

(** Bob watches article 42, the article is renamed; an update of article 7
    arrives. *)
Definition st_watching : State :=
  with_world db_renamed (state_of (run (onMessage bob watch42) st0)).

Definition updated7 : WebSocketEvent :=
  WebSocketUpdateEvent "articles" (Some [("name", JStr "c")]) [KNum 7].

Definition carol : Client := 3.

(** Who holds which uid in a collection. *)
Definition holders (st : State) (coll : string) : list (Client * option string) :=
  map (fun s => (client s, uid s))
    (Subscriptions.subscribersOf (subscriptions st) coll).

End Demo.

(** ** The same world behind services that can refuse a query *)

Module Strict.
Import Demo.

(** As [Demo.demo], but a query with a [limit] does not sanitize. *)
Definition strict : Env := {|
  World := Db;
  Accountability := bool;
  SchemaOverview := list string;
  Error := string;
  admin := fun a => a;
  collections := fun sch c => existsb (String.eqb c) sch;
  getSchema := fun w => (inr schema0, w);
  refreshAccountability := fun a w => (inr a, w);
  sanitizeQuery := fun q _ =>
    if JsObject.has "limit" q then inl "INVALID_QUERY" else inr q;
  readOne := fun c _ _ id _ w =>
    match name42 w with
    | Some name =>
        if readable w && is42 id && String.eqb c "articles"
        then (inr (article name), w) else (inl "FORBIDDEN", w)
    | None => (inl "FORBIDDEN", w)
    end;
  readByQuery := fun _ _ _ _ w =>
    if readable w then (inr (JArr []), w) else (inl "FORBIDDEN", w);
  getMetaForQuery := fun _ _ _ _ w => (inr (JObj []), w)
|}.

(** Alice holds a subscription under the uid "a". *)
Definition st_a : @State strict :=
  @mkState strict
    [("articles", [mkSubscription 0 alice "articles" None None (Some "a")])]
    (fun _ => None) 1 db0.

End Strict.

(** ** Properties of objects used as dictionaries *)

Module JsObjectFacts.
Import JsObject.

Section Facts.
Context {V : Type}.
Implicit Types (o : JsObject.t V) (k : string) (v : V).

Lemma get_replace_same o k v :
  has k o = true -> get (replace k v o) k = Some v.
Proof.
  unfold has. induction o as [|[k' v'] o IH]; simpl; [discriminate|].
  destruct (String.eqb k' k) eqn:E; simpl.
  - now rewrite String.eqb_refl.
  - now rewrite E.
Qed.

Lemma get_replace_other o k k' v :
  k <> k' -> get (replace k v o) k' = get o k'.
Proof.
  intros N. induction o as [|[k0 v0] o IH]; simpl; [reflexivity|].
  destruct (String.eqb k0 k) eqn:E; simpl.
  - apply String.eqb_eq in E. subst k0.
    apply String.eqb_neq in N. now rewrite N.
  - now rewrite IH.
Qed.

Lemma get_create_same o k v :
  get o k = None -> get (create k v o) k = Some v.
Proof.
  induction o as [|[k' v'] o IH]; simpl.
  - now rewrite String.eqb_refl.
  - destruct (String.eqb k' k) eqn:E; [discriminate|]. intros H.
    destruct (precedes k k'); simpl.
    + now rewrite String.eqb_refl.
    + rewrite E. auto.
Qed.

Lemma get_create_other o k k' v :
  k <> k' -> get (create k v o) k' = get o k'.
Proof.
  intros N. apply String.eqb_neq in N.
  induction o as [|[k0 v0] o IH]; simpl.
  - now rewrite N.
  - destruct (precedes k k0); simpl.
    + now rewrite N.
    + now rewrite IH.
Qed.

Lemma get_set_same o k v : get (set k v o) k = Some v.
Proof.
  unfold set. destruct (has k o) eqn:E.
  - now apply get_replace_same.
  - apply get_create_same. unfold has in E.
    destruct (get o k); [discriminate|reflexivity].
Qed.

Lemma get_set_other o k k' v : k <> k' -> get (set k v o) k' = get o k'.
Proof.
  intros N. unfold set. destruct (has k o).
  - now apply get_replace_other.
  - now apply get_create_other.
Qed.

Lemma get_set o k k' v :
  get (set k v o) k' = if String.eqb k k' then Some v else get o k'.
Proof.
  destruct (String.eqb k k') eqn:E.
  - apply String.eqb_eq in E. subst. apply get_set_same.
  - apply String.eqb_neq in E. now apply get_set_other.
Qed.

Lemma get_in_keys o k v : get o k = Some v -> In k (keys o).
Proof.
  induction o as [|[k' v'] o IH]; simpl; [discriminate|].
  destruct (String.eqb k' k) eqn:E.
  - apply String.eqb_eq in E. auto.
  - auto.
Qed.

Lemma get_none_keys o k : get o k = None <-> ~ In k (keys o).
Proof.
  induction o as [|[k' v'] o IH]; simpl; [tauto|].
  destruct (String.eqb k' k) eqn:E.
  - apply String.eqb_eq in E. split; [discriminate|]. intros H. tauto.
  - apply String.eqb_neq in E. rewrite IH. tauto.
Qed.

Lemma keys_replace o k v : keys (replace k v o) = keys o.
Proof.
  induction o as [|[k' v'] o IH]; simpl; [reflexivity|].
  destruct (String.eqb k' k) eqn:E; simpl.
  - apply String.eqb_eq in E. now subst.
  - now rewrite IH.
Qed.

Lemma in_keys_create o k v k' :
  In k' (keys (create k v o)) <-> k' = k \/ In k' (keys o).
Proof.
  induction o as [|[k0 v0] o IH]; simpl.
  - split; intros [H|H]; auto; contradiction.
  - destruct (precedes k k0); simpl.
    + split; intros [H|H]; auto.
    + rewrite IH. split; intros [H|[H|H]]; auto.
Qed.

Lemma NoDup_keys_create o k v :
  ~ In k (keys o) -> NoDup (keys o) -> NoDup (keys (create k v o)).
Proof.
  induction o as [|[k0 v0] o IH]; simpl; intros N D.
  - constructor; [tauto|constructor].
  - destruct (precedes k k0); simpl.
    + constructor; [exact N|exact D].
    + inversion D as [|? ? N0 D0]; subst. constructor.
      * rewrite in_keys_create. intros [->|H]; [|contradiction]. tauto.
      * apply IH; tauto.
Qed.

(** Writing a property keeps the keys distinct. *)
Lemma NoDup_keys_set o k v : NoDup (keys o) -> NoDup (keys (set k v o)).
Proof.
  intros D. unfold set. destruct (has k o) eqn:E.
  - now rewrite keys_replace.
  - apply NoDup_keys_create; [|exact D]. apply get_none_keys.
    unfold has in E. now destruct (get o k).
Qed.

Lemma in_keys_set o k v k' :
  In k' (keys (set k v o)) <-> k' = k \/ In k' (keys o).
Proof.
  unfold set. destruct (has k o) eqn:E.
  - rewrite keys_replace. split; [tauto|]. intros [->|H]; [|exact H].
    unfold has in E. destruct (get o k) as [x|] eqn:G; [|discriminate].
    now apply get_in_keys in G.
  - apply in_keys_create.
Qed.

Lemma get_in o k v : get o k = Some v -> In (k, v) o.
Proof.
  induction o as [|[k' v'] o IH]; simpl; [discriminate|].
  destruct (String.eqb k' k) eqn:E.
  - apply String.eqb_eq in E. intros [= <-]. left. now subst.
  - auto.
Qed.

Lemma in_get o k v : NoDup (keys o) -> In (k, v) o -> get o k = Some v.
Proof.
  induction o as [|[k' v'] o IH]; simpl; [tauto|].
  intros D [H|H]; inversion D as [|? ? N D']; subst.
  - injection H as -> ->. now rewrite String.eqb_refl.
  - destruct (String.eqb k' k) eqn:E; [|auto].
    apply String.eqb_eq in E. subst k'. exfalso. apply N.
    change k with (fst (k, v)). now apply in_map.
Qed.

End Facts.
End JsObjectFacts.

(** ** Properties of the registry *)

Module SubscriptionsFacts.
Import JsObject JsObjectFacts Subscriptions Invariants.

Lemma sets_ok_get subs k l :
  sets_ok subs = true -> get subs k = Some l -> distinct (map ref l) = true.
Proof.
  unfold sets_ok. induction subs as [|[k' l'] subs IH]; simpl; [discriminate|].
  intros H. apply andb_prop in H as [H1 H2].
  destruct (String.eqb k' k); [intros [= <-]; exact H1 | auto].
Qed.

Lemma subscribersOf_set subs k k' l :
  subscribersOf (set k l subs) k' =
  if String.eqb k k' then l else subscribersOf subs k'.
Proof.
  unfold subscribersOf. rewrite get_set. now destruct (String.eqb k k').
Qed.

Lemma get_delete_at subs key s k :
  get (delete_at key s subs) k =
  if String.eqb key k then option_map (set_delete s) (get subs key)
  else get subs k.
Proof.
  unfold delete_at. destruct (get subs key) as [l|] eqn:E.
  - rewrite get_set. now destruct (String.eqb key k).
  - destruct (String.eqb key k) eqn:K; [|reflexivity].
    apply String.eqb_eq in K. subst. now rewrite E.
Qed.

Lemma filter_filter {A} (f g : A -> bool) l :
  filter f (filter g l) = filter (fun x => g x && f x) l.
Proof.
  induction l as [|x l IH]; simpl; [reflexivity|].
  destruct (g x); simpl; [destruct (f x)|]; now rewrite IH.
Qed.

(** The inner loop of [unsubscribe]: what is left of the set under [key]. *)
Lemma get_sweep_loop c u key k xs : forall subs,
  get (fold_left
         (fun acc s =>
            if (client s =? c) && (negb (truthy u) || uid_eqb (uid s) u)
            then delete_at key s acc else acc) xs subs) k =
  if String.eqb key k then
    option_map
      (filter (fun x =>
         negb (existsb (fun s =>
           (client s =? c) && (negb (truthy u) || uid_eqb (uid s) u)
           && (ref x =? ref s)) xs)))
      (get subs key)
  else get subs k.
Proof.
  induction xs as [|s xs IH]; intros subs; simpl.
  - destruct (String.eqb key k) eqn:K; [|reflexivity].
    apply String.eqb_eq in K. subst.
    destruct (get subs k) as [l|]; simpl; [|reflexivity].
    f_equal. induction l as [|x l IHl]; simpl; congruence.
  - rewrite IH.
    destruct ((client s =? c) && (negb (truthy u) || uid_eqb (uid s) u)) eqn:C;
      simpl.
    + rewrite !get_delete_at, String.eqb_refl.
      destruct (String.eqb key k); [|reflexivity].
      destruct (get subs key) as [l|]; simpl; [|reflexivity].
      unfold set_delete. rewrite filter_filter. f_equal.
      apply filter_ext. intros x. now rewrite negb_orb.
    + reflexivity.
Qed.

Lemma existsb_ref_owner c l x :
  distinct (map ref l) = true -> In x l ->
  existsb (fun s => (client s =? c) && (ref x =? ref s)) l = (client x =? c).
Proof.
  induction l as [|y l IH]; simpl; [tauto|].
  intros D [-> | I]; apply andb_prop in D as [D1 D2].
  - rewrite Nat.eqb_refl, andb_true_r.
    destruct (client x =? c); [reflexivity|]. simpl.
    apply not_true_is_false. intros E. apply existsb_exists in E as (s & Hs & E).
    apply andb_prop in E as [_ E]. apply Nat.eqb_eq in E.
    apply negb_true_iff in D1. apply not_true_iff_false in D1. apply D1.
    apply existsb_exists. exists (ref s). split; [now apply in_map|].
    now apply Nat.eqb_eq.
  - rewrite (IH D2 I).
    destruct (ref x =? ref y) eqn:E; [|now rewrite andb_false_r].
    exfalso. apply Nat.eqb_eq in E.
    apply negb_true_iff in D1. apply not_true_iff_false in D1. apply D1.
    apply existsb_exists. exists (ref x). split; [now apply in_map|].
    apply Nat.eqb_eq. now symmetry.
Qed.

Lemma distinct_filter (f : Subscription -> bool) l :
  distinct (map ref l) = true -> distinct (map ref (filter f l)) = true.
Proof.
  induction l as [|x l IH]; simpl; [reflexivity|].
  intros D. apply andb_prop in D as [D1 D2].
  destruct (f x); simpl; [|auto].
  rewrite (IH D2), andb_true_r.
  apply negb_true_iff. apply not_true_is_false. intros E.
  apply negb_true_iff in D1. apply not_true_iff_false in D1. apply D1.
  apply existsb_exists in E as (n & Hn & E). apply existsb_exists.
  exists n. split; [|exact E].
  apply in_map_iff in Hn as (s & <- & Hs). apply in_map.
  now apply filter_In in Hs as [Hs _].
Qed.

Lemma existsb_rev {A} (f : A -> bool) l : existsb f (rev l) = existsb f l.
Proof.
  induction l as [|x l IH]; simpl; [reflexivity|].
  rewrite existsb_app, IH. simpl. rewrite orb_false_r. apply orb_comm.
Qed.

(** One collection swept for a client that gave no uid. *)
Lemma get_sweep_all c key k subs :
  distinct (map ref (subscribersOf subs key)) = true ->
  get (sweep c None key subs) k =
  if String.eqb key k then option_map (filter (kept c)) (get subs key)
  else get subs k.
Proof.
  intros D. unfold sweep. rewrite get_sweep_loop.
  destruct (String.eqb key k); [|reflexivity].
  unfold subscribersOf in *.
  destruct (get subs key) as [l|]; simpl; [|reflexivity].
  f_equal. apply filter_ext_in. intros x Hx. unfold kept. f_equal.
  rewrite existsb_rev.
  rewrite <- (existsb_ref_owner c l x D Hx).
  clear. induction l as [|s l IH]; simpl; [reflexivity|].
  now rewrite IH, andb_true_r.
Qed.

Lemma sets_ok_distinct subs : sets_ok subs = true -> sets_distinct subs.
Proof. intros H k l. now apply sets_ok_get. Qed.

Lemma sets_distinct_sweep c key subs :
  sets_distinct subs -> sets_distinct (sweep c None key subs).
Proof.
  intros W k l. rewrite get_sweep_all.
  - destruct (String.eqb key k); [|apply W].
    destruct (get subs key) as [l0|] eqn:E; simpl; [|discriminate].
    intros [= <-]. apply distinct_filter. now apply (W key).
  - unfold subscribersOf. destruct (get subs key) as [l0|] eqn:E;
      [now apply (W key)|reflexivity].
Qed.

Lemma filter_idem {A} (f : A -> bool) l : filter f (filter f l) = filter f l.
Proof.
  rewrite filter_filter. apply filter_ext. intros x. now destruct (f x).
Qed.

Lemma get_sweep_keys c k ks : forall subs,
  sets_distinct subs ->
  get (fold_left (fun acc key => sweep c None key acc) ks subs) k =
  if existsb (String.eqb k) ks then option_map (filter (kept c)) (get subs k)
  else get subs k.
Proof.
  induction ks as [|key ks IH]; intros subs W; simpl; [reflexivity|].
  rewrite (IH _ (sets_distinct_sweep c key W)).
  rewrite get_sweep_all.
  2:{ unfold subscribersOf. destruct (get subs key) as [l0|] eqn:E;
      [now apply (W key)|reflexivity]. }
  rewrite (String.eqb_sym k key).
  destruct (String.eqb key k) eqn:K; simpl.
  - apply String.eqb_eq in K. subst key.
    destruct (get subs k) as [l|]; simpl.
    + rewrite filter_idem. now destruct (existsb (String.eqb k) ks).
    + now destruct (existsb (String.eqb k) ks).
  - reflexivity.
Qed.

(** [unsubscribe(client)] leaves, in every collection, the subscriptions of
    the other clients. *)
Lemma get_unsubscribe_all c subs k :
  sets_distinct subs ->
  get (unsubscribe c None subs) k = option_map (filter (kept c)) (get subs k).
Proof.
  intros W. unfold unsubscribe. rewrite (get_sweep_keys c k _ W).
  destruct (existsb (String.eqb k) (keys subs)) eqn:E; [reflexivity|].
  destruct (get subs k) as [l|] eqn:G; [|reflexivity].
  apply get_in_keys in G. exfalso.
  apply not_true_iff_false in E. apply E. apply existsb_exists.
  exists k. split; [exact G|apply String.eqb_refl].
Qed.

Lemma subscribersOf_unsubscribe_all c subs k :
  sets_distinct subs ->
  subscribersOf (unsubscribe c None subs) k =
  filter (kept c) (subscribersOf subs k).
Proof.
  intros W. unfold subscribersOf. rewrite (get_unsubscribe_all c k W).
  now destruct (get subs k).
Qed.

(** Removing never adds. *)
Lemma sweep_subset c u key subs k s :
  In s (subscribersOf (sweep c u key subs) k) -> In s (subscribersOf subs k).
Proof.
  unfold sweep, subscribersOf at 1. rewrite get_sweep_loop.
  unfold subscribersOf. destruct (String.eqb key k) eqn:K; [|tauto].
  apply String.eqb_eq in K. subst key.
  destruct (get subs k) as [l|]; simpl; [|tauto].
  intros H. now apply filter_In in H.
Qed.

Lemma delete_at_subset key x subs k s :
  In s (subscribersOf (delete_at key x subs) k) -> In s (subscribersOf subs k).
Proof.
  unfold subscribersOf. rewrite get_delete_at.
  destruct (String.eqb key k) eqn:K; [|tauto].
  apply String.eqb_eq in K. subst key.
  destruct (get subs k) as [l|]; simpl; [|tauto].
  intros H. now apply filter_In in H.
Qed.

Lemma unsubscribe_subset c u subs k s :
  In s (subscribersOf (unsubscribe c u subs) k) -> In s (subscribersOf subs k).
Proof.
  unfold unsubscribe. destruct u as [x|].
  - destruct (getSubscription x subs) as [y|]; [|tauto].
    destruct (client y =? c); [apply delete_at_subset|tauto].
  - generalize (keys subs). intros ks. revert subs.
    induction ks as [|key ks IH]; intros subs; simpl; [tauto|].
    intros H. apply IH in H. now apply sweep_subset in H.
Qed.

(** [subscribe] puts the subscription into the set of its collection and
    touches no other set. *)
Lemma subscribersOf_subscribe s subs k :
  subscribersOf (added s subs) k =
  if String.eqb (collection s) k then set_add s (subscribersOf subs k)
  else subscribersOf subs k.
Proof.
  unfold added.
  destruct (get subs (collection s)) as [l|] eqn:E.
  - rewrite E, subscribersOf_set.
    destruct (String.eqb (collection s) k) eqn:K; [|reflexivity].
    apply String.eqb_eq in K. subst k. unfold subscribersOf. now rewrite E.
  - rewrite get_set_same, subscribersOf_set.
    destruct (String.eqb (collection s) k) eqn:K.
    + apply String.eqb_eq in K. subst k. unfold subscribersOf. now rewrite E.
    + rewrite subscribersOf_set. now rewrite K.
Qed.

Lemma refs_ok_below n subs : refs_ok n subs = true -> refs_below n subs.
Proof.
  unfold refs_ok, refs_below, subscribersOf.
  induction subs as [|[k' l'] subs IH]; simpl; [tauto|].
  intros H k s. apply andb_prop in H as [H1 H2].
  destruct (String.eqb k' k); [|now apply IH].
  intros I. rewrite forallb_forall in H1. apply H1 in I.
  now apply Nat.ltb_lt in I.
Qed.

Lemma set_add_fresh s l :
  (forall x, In x l -> ref x < ref s) -> set_add s l = l ++ [s].
Proof.
  intros F. unfold set_add.
  destruct (existsb (fun x => ref x =? ref s) l) eqn:E; [|reflexivity].
  apply existsb_exists in E as (x & Hx & E). apply Nat.eqb_eq in E.
  apply F in Hx. lia.
Qed.

Lemma get_subscribe s subs k :
  get (added s subs) k =
  if String.eqb (collection s) k
  then Some (set_add s (subscribersOf subs k))
  else get subs k.
Proof.
  unfold added, subscribersOf.
  destruct (get subs (collection s)) as [l|] eqn:E.
  - rewrite E, get_set.
    destruct (String.eqb (collection s) k) eqn:K; [|reflexivity].
    apply String.eqb_eq in K. subst k. now rewrite E.
  - rewrite get_set_same, !get_set.
    destruct (String.eqb (collection s) k) eqn:K; [|reflexivity].
    apply String.eqb_eq in K. subst k. now rewrite E.
Qed.

Lemma distinct_snoc l n :
  distinct l = true -> (forall x, In x l -> x < n) -> distinct (l ++ [n]) = true.
Proof.
  induction l as [|x l IH]; simpl; [reflexivity|].
  intros D F. apply andb_prop in D as [D1 D2].
  rewrite IH by auto. rewrite andb_true_r, existsb_app. simpl.
  apply negb_true_iff in D1. rewrite D1. simpl. rewrite orb_false_r.
  apply negb_true_iff. apply Nat.eqb_neq.
  specialize (F x (or_introl eq_refl)). lia.
Qed.

Lemma unsubscribe_well_formed c u n subs :
  well_formed n subs -> well_formed n (unsubscribe c u subs).
Proof.
  intros (W & B & K). split; [|split].
  - destruct u as [x|].
    + unfold unsubscribe. destruct (getSubscription x subs) as [s|]; [|exact W].
      destruct (client s =? c); [|exact W].
      intros k l. rewrite get_delete_at.
      destruct (String.eqb (collection s) k); [|apply W].
      destruct (get subs (collection s)) as [l0|] eqn:E; simpl; [|discriminate].
      intros [= <-]. apply distinct_filter. now apply (W (collection s)).
    + intros k l. rewrite (get_unsubscribe_all c k W).
      destruct (get subs k) as [l0|] eqn:E; simpl; [|discriminate].
      intros [= <-]. apply distinct_filter. now apply (W k).
  - intros k s I. apply unsubscribe_subset in I. now apply B in I.
  - intros k s I. apply unsubscribe_subset in I. now apply K in I.
Qed.

Lemma subscribe_well_formed s subs :
  well_formed (ref s) subs -> well_formed (S (ref s)) (added s subs).
Proof.
  intros (W & B & K).
  assert (A : forall k, set_add s (subscribersOf subs k)
                        = subscribersOf subs k ++ [s]).
  { intros k. apply set_add_fresh. intros x I. now apply B in I. }
  split; [|split].
  - intros k l. rewrite get_subscribe, A.
    destruct (String.eqb (collection s) k); [|apply W].
    intros [= <-]. rewrite map_app. simpl. apply distinct_snoc.
    + unfold subscribersOf. destruct (get subs k) as [l0|] eqn:E;
        [now apply (W k)|reflexivity].
    + intros x I. apply in_map_iff in I as (y & <- & I). now apply B in I.
  - intros k x. rewrite subscribersOf_subscribe, A.
    destruct (String.eqb (collection s) k).
    + intros I. apply in_app_or in I as [I|[<-|[]]]; [apply B in I|]; lia.
    + intros I. apply B in I. lia.
  - intros k x. rewrite subscribersOf_subscribe, A.
    destruct (String.eqb (collection s) k) eqn:E.
    + apply String.eqb_eq in E.
      intros I. apply in_app_or in I as [I|[<-|[]]]; [now apply K in I|exact E].
    + apply K.
Qed.

Lemma well_formed_later n subs : well_formed n subs -> well_formed (S n) subs.
Proof.
  intros (W & B & K). repeat split; auto.
  intros k s I. apply B in I. lia.
Qed.

(** The uid of the request matches a subscription of the client before it
    matches one of anybody else. *)
Lemma unsubscribe_uid_found c x subs s :
  getSubscription x subs = Some s -> client s = c ->
  unsubscribe c (Some x) subs = delete_at (collection s) s subs.
Proof.
  intros G O. unfold unsubscribe. rewrite G, O. now rewrite Nat.eqb_refl.
Qed.

(** A uid that no subscription of the client carries: nothing changes. *)
Lemma unsubscribe_unknown_uid c x subs :
  (forall s, In s (List.concat (values subs)) ->
             uid s = Some x -> client s <> c) ->
  unsubscribe c (Some x) subs = subs.
Proof.
  intros H. unfold unsubscribe.
  destruct (getSubscription x subs) as [s|] eqn:G; [|reflexivity].
  unfold getSubscription in G. apply find_some in G as [I U].
  destruct (uid s) as [y|] eqn:Y; [|discriminate]. simpl in U.
  apply String.eqb_eq in U. subst y.
  specialize (H s I Y). apply Nat.eqb_neq in H. now rewrite H.
Qed.

(** *** Lookups by uid, and what a removal leaves *)

Lemma uid_eqb_eq a b : uid_eqb a b = true <-> a = b.
Proof.
  destruct a as [x|], b as [y|]; simpl; try (split; congruence).
  rewrite String.eqb_eq. split; congruence.
Qed.

Lemma registered_in_values subs s :
  registered subs s -> In s (List.concat (values subs)).
Proof.
  intros (k & I). unfold subscribersOf in I.
  destruct (get subs k) as [l|] eqn:G; [|contradiction].
  apply get_in in G. apply in_concat. exists l. split; [|exact I].
  unfold values. change l with (snd (k, l)). now apply in_map.
Qed.

Lemma values_registered subs s :
  NoDup (keys subs) -> In s (List.concat (values subs)) -> registered subs s.
Proof.
  intros D I. apply in_concat in I as (l & L & I).
  unfold values in L. apply in_map_iff in L as ([k l'] & E & L).
  simpl in E. subst l'. exists k. unfold subscribersOf.
  now rewrite (in_get _ _ _ D L).
Qed.

Lemma getSubscription_some u subs s :
  getSubscription u subs = Some s ->
  uid s = Some u /\ In s (List.concat (values subs)).
Proof.
  unfold getSubscription. intros F. apply find_some in F as [I U].
  split; [now apply uid_eqb_eq|exact I].
Qed.

Lemma getSubscription_none u subs s :
  getSubscription u subs = None ->
  In s (List.concat (values subs)) -> uid s <> Some u.
Proof.
  unfold getSubscription. intros F I U.
  apply (find_none _ _ F) in I. apply uid_eqb_eq in U. congruence.
Qed.

Lemma keys_set_present {V} (o : JsObject.t V) k v x :
  get o k = Some x -> keys (set k v o) = keys o.
Proof.
  intros G. unfold set, has. rewrite G. apply keys_replace.
Qed.

Lemma keys_delete_at key s subs : keys (delete_at key s subs) = keys subs.
Proof.
  unfold delete_at. destruct (get subs key) as [l|] eqn:G; [|reflexivity].
  now apply keys_set_present with (x := l).
Qed.

Lemma keys_sweep c u key subs : keys (sweep c u key subs) = keys subs.
Proof.
  unfold sweep. generalize (rev (subscribersOf subs key)). intros xs.
  revert subs. induction xs as [|s xs IH]; intros subs; simpl; [reflexivity|].
  rewrite IH.
  destruct ((client s =? c) && (negb (truthy u) || uid_eqb (uid s) u));
    [apply keys_delete_at|reflexivity].
Qed.

(** A removal never drops a collection from the registry: an emptied set
    stays under its key. *)
Lemma keys_unsubscribe c u subs : keys (unsubscribe c u subs) = keys subs.
Proof.
  unfold unsubscribe. destruct u as [x|].
  - destruct (getSubscription x subs) as [s|]; [|reflexivity].
    destruct (client s =? c); [apply keys_delete_at|reflexivity].
  - generalize (keys subs) at 1. intros ks. revert subs.
    induction ks as [|key ks IH]; intros subs; simpl; [reflexivity|].
    now rewrite IH, keys_sweep.
Qed.

Lemma NoDup_keys_subscribe s subs :
  NoDup (keys subs) -> NoDup (keys (added s subs)).
Proof.
  intros D. unfold added.
  destruct (get subs (collection s)) as [l|] eqn:E.
  - rewrite E. now apply NoDup_keys_set.
  - rewrite get_set_same. now do 2 apply NoDup_keys_set.
Qed.

Lemma unsubscribe_sound c u n subs :
  sound n subs -> sound n (unsubscribe c u subs).
Proof.
  intros [W D]. split; [now apply unsubscribe_well_formed|].
  now rewrite keys_unsubscribe.
Qed.

Lemma subscribe_sound s subs :
  sound (ref s) subs -> sound (S (ref s)) (added s subs).
Proof.
  intros [W D]. split; [now apply subscribe_well_formed|].
  now apply NoDup_keys_subscribe.
Qed.

Lemma sound_later n subs : sound n subs -> sound (S n) subs.
Proof. intros [W D]. split; [now apply well_formed_later|exact D]. Qed.

Lemma distinct_ref_inj l x y :
  distinct (map ref l) = true -> In x l -> In y l -> ref x = ref y -> x = y.
Proof.
  induction l as [|z l IH]; simpl; [tauto|].
  intros D Ix Iy E. apply andb_prop in D as [D1 D2].
  apply negb_true_iff in D1.
  assert (N : forall w, In w l -> ref z <> ref w).
  { intros w Iw Ew. apply not_true_iff_false in D1. apply D1.
    apply existsb_exists. exists (ref w). split; [now apply in_map|].
    now apply Nat.eqb_eq. }
  destruct Ix as [<-|Ix], Iy as [<-|Iy]; auto.
  - exfalso. now apply (N y).
  - exfalso. apply (N x Ix). now symmetry.
Qed.

(** In a sound registry a subscription sits in the set of its collection. *)
Lemma registered_home n subs s :
  sound n subs -> registered subs s ->
  In s (subscribersOf subs (collection s)) /\
  distinct (map ref (subscribersOf subs (collection s))) = true.
Proof.
  intros [(W & B & K) D] (k & I). pose proof (K k s I) as E. subst k.
  split; [exact I|]. unfold subscribersOf in *.
  destruct (get subs (collection s)) as [l|] eqn:G; [|contradiction].
  now apply (W (collection s)).
Qed.

Lemma subscribersOf_delete_at key s subs k :
  subscribersOf (delete_at key s subs) k =
  if String.eqb key k then set_delete s (subscribersOf subs k)
  else subscribersOf subs k.
Proof.
  unfold subscribersOf. rewrite get_delete_at.
  destruct (String.eqb key k) eqn:E; [|reflexivity].
  apply String.eqb_eq in E. subst key. now destruct (get subs k).
Qed.

(** Deleting a registered subscription takes out that object and no other. *)
Lemma in_delete_registered n subs s k x :
  sound n subs -> registered subs s ->
  (In x (subscribersOf (delete_at (collection s) s subs) k) <->
   In x (subscribersOf subs k) /\ x <> s).
Proof.
  intros S R. destruct (registered_home S R) as [H Dl].
  destruct S as [(W & B & K) D].
  rewrite subscribersOf_delete_at.
  destruct (String.eqb (collection s) k) eqn:E.
  - apply String.eqb_eq in E. subst k. unfold set_delete.
    rewrite filter_In, negb_true_iff, Nat.eqb_neq. split.
    + intros [I N]. split; [exact I|]. intros ->. now apply N.
    + intros [I N]. split; [exact I|]. intros Er. apply N.
      now apply (distinct_ref_inj _ x s Dl).
  - apply String.eqb_neq in E. split; [|tauto].
    intros I. split; [exact I|]. intros ->. apply K in I. now apply E.
Qed.

(** What a removal for [c] leaves of the subscriptions of another client:
    all of them. *)
Lemma unsubscribe_others c u n subs c' k :
  sound n subs -> c' <> c ->
  filter (owned_by c') (subscribersOf (unsubscribe c u subs) k) =
  filter (owned_by c') (subscribersOf subs k).
Proof.
  intros S N. destruct u as [x|].
  - unfold unsubscribe.
    destruct (getSubscription x subs) as [s|] eqn:G; [|reflexivity].
    destruct (client s =? c) eqn:O; [|reflexivity].
    apply Nat.eqb_eq in O.
    apply getSubscription_some in G as [_ I].
    apply (values_registered _ _ (proj2 S)) in I.
    destruct (registered_home S I) as [H Dl].
    rewrite subscribersOf_delete_at.
    destruct (String.eqb (collection s) k) eqn:E; [|reflexivity].
    apply String.eqb_eq in E. subst k. unfold set_delete.
    rewrite filter_filter. apply filter_ext_in. intros y Iy.
    destruct (ref y =? ref s) eqn:R; [|reflexivity]. simpl.
    apply Nat.eqb_eq in R.
    rewrite (distinct_ref_inj _ y s Dl Iy H R).
    unfold owned_by. symmetry. apply Nat.eqb_neq. congruence.
  - rewrite (subscribersOf_unsubscribe_all c k (proj1 (proj1 S))).
    rewrite filter_filter. apply filter_ext. intros y.
    unfold kept, owned_by.
    destruct (client y =? c') eqn:E; [|now rewrite andb_false_r].
    apply Nat.eqb_eq in E. rewrite andb_true_r.
    apply negb_true_iff. apply Nat.eqb_neq. congruence.
Qed.

(** *** Names the registry inherits *)

Lemma accepts_get subs k l : get subs k = Some l -> accepts subs k = true.
Proof. intros G. unfold accepts, read. now rewrite G. Qed.

Lemma accepts_ordinary subs k : inherited k = false -> accepts subs k = true.
Proof.
  intros H. unfold accepts, read. rewrite H. now destruct (get subs k).
Qed.

Lemma accepts_false subs k :
  accepts subs k = false -> get subs k = None /\ inherited k = true.
Proof.
  unfold accepts, read. destruct (get subs k); [discriminate|].
  destruct (inherited k); [tauto|discriminate].
Qed.

Lemma accepts_of_subscribers subs k l1 s l2 :
  subscribersOf subs k = l1 ++ s :: l2 -> accepts subs k = true.
Proof.
  unfold subscribersOf. destruct (get subs k) as [l|] eqn:G.
  - intros _. now apply accepts_get with (l := l).
  - intros H. now destruct l1.
Qed.

(** A removal drops no key, so it leaves what the registry accepts. *)
Lemma accepts_unsubscribe c u subs k :
  accepts (unsubscribe c u subs) k = accepts subs k.
Proof.
  unfold accepts, read.
  destruct (get subs k) as [l|] eqn:G.
  - apply get_in_keys in G. rewrite <- (keys_unsubscribe c u) in G.
    destruct (get (unsubscribe c u subs) k) as [l'|] eqn:G'; [reflexivity|].
    now apply get_none_keys in G'.
  - apply get_none_keys in G. rewrite <- (keys_unsubscribe c u) in G.
    apply get_none_keys in G. now rewrite G.
Qed.

(** [subscribe] throws exactly when the collection of the subscription is
    the name of an inherited member and no key of the registry; otherwise it
    adds the subscription. *)
Lemma subscribe_accepts s subs :
  accepts subs (collection s) = true ->
  subscribe s subs = Some (added s subs).
Proof.
  unfold accepts, subscribe, added, read.
  destruct (get subs (collection s)) as [l|] eqn:G.
  - intros _. now rewrite G.
  - destruct (inherited (collection s)); [discriminate|]. intros _.
    now rewrite get_set_same.
Qed.

Lemma subscribe_rejects s subs :
  accepts subs (collection s) = false -> subscribe s subs = None.
Proof.
  intros H. apply accepts_false in H as [G I].
  unfold subscribe, read. rewrite G, I. cbv beta iota zeta.
  now rewrite G.
Qed.

End SubscriptionsFacts.

(** ** Properties of the handler *)

Arguments reads : simpl never.
Unset Implicit Arguments.

Section HandlerFacts.
Context {env : Env}.
Import Invariants SubscriptionsFacts.

Ltac unfold_monad :=
  unfold run, result_of, state_of, trace_of, bind, ret, throw, call, gets,
    modify, effect, send, handleWebsocketException in *.

(** The reads of a payload look at the world only, and change nothing else. *)
Lemma getPayload_frame s a sch event st :
  getPayload s a sch event st =
  let '(r, w, t) := reads s a sch event (world st) in (r, with_world w st, t).
Proof.
  unfold reads, getPayload, getSinglePayload, getMultiPayload.
  unfold_monad. simpl.
  destruct (item s) as [id|]; simpl.
  - destruct (readOne (collection s) sch a id (query_of s) (world st))
      as [[x|p] w1]; simpl; [reflexivity|].
    destruct (JsObject.has "meta" (query_of s)); simpl; [|reflexivity].
    destruct (getMetaForQuery (collection s) sch a (query_of s) w1)
      as [[x|m] w2]; reflexivity.
  - destruct (readByQuery (collection s) sch a (query_of s) (world st))
      as [[x|p] w1]; simpl; [reflexivity|].
    destruct (JsObject.has "meta" (query_of s)); simpl; [|reflexivity].
    destruct (getMetaForQuery (collection s) sch a (query_of s) w1)
      as [[x|m] w2]; reflexivity.
Qed.

(** They are calls of the read services only, for the collection, the key and
    the query of the subscription, under the accountability and the schema
    that were passed. *)
Lemma reads_calls s a sch event w r w' t :
  reads s a sch event w = (r, w', t) ->
  Forall (fun e => is_call e = true /\ about s e /\ read_under a sch e) t.
Proof.
  unfold reads, getPayload, getSinglePayload, getMultiPayload.
  unfold_monad. simpl.
  destruct (item s) as [id|] eqn:I; simpl.
  - destruct (readOne (collection s) sch a id (query_of s) w)
      as [[x|p] w1]; simpl.
    { intros [= <- <- <-]. repeat constructor; simpl; auto. }
    destruct (JsObject.has "meta" (query_of s)); simpl.
    2:{ intros [= <- <- <-]. repeat constructor; simpl; auto. }
    destruct (getMetaForQuery (collection s) sch a (query_of s) w1)
      as [[x|m] w2]; intros [= <- <- <-]; repeat constructor; simpl; auto.
  - destruct (readByQuery (collection s) sch a (query_of s) w)
      as [[x|p] w1]; simpl.
    { intros [= <- <- <-]. repeat constructor; simpl; auto. }
    destruct (JsObject.has "meta" (query_of s)); simpl.
    2:{ intros [= <- <- <-]. repeat constructor; simpl; auto. }
    destruct (getMetaForQuery (collection s) sch a (query_of s) w1)
      as [[x|m] w2]; intros [= <- <- <-]; repeat constructor; simpl; auto.
Qed.

(** The payload of a single-item subscription: the event it is tagged with
    and the item as [readOne] returned it. *)
Lemma reads_single s id a sch event w res w' t :
  item s = Some id ->
  reads s a sch event w = (Ok res, w', t) ->
  prop res "event" = JStr event /\
  exists w1,
    readOne (collection s) sch a id (query_of s) w = (inr (prop res "payload"), w1).
Proof.
  intros I. unfold reads, getPayload, getSinglePayload.
  unfold_monad. rewrite I. simpl.
  destruct (readOne (collection s) sch a id (query_of s) w)
    as [[x|p] w1]; simpl; [discriminate|].
  destruct (JsObject.has "meta" (query_of s)); simpl.
  2:{ intros [= <- <- <-]. split; [reflexivity|]. now exists w1. }
  destruct (getMetaForQuery (collection s) sch a (query_of s) w1)
    as [[x|m] w2]; intros [= <- <- <-].
  split; [reflexivity|]. now exists w1.
Qed.

Lemma responses_app t1 t2 : responses (t1 ++ t2) = responses t1 ++ responses t2.
Proof. unfold responses. now rewrite flat_map_app. Qed.

Lemma pushes_app t1 t2 : pushes (t1 ++ t2) = pushes t1 ++ pushes t2.
Proof. unfold pushes. now rewrite flat_map_app. Qed.

Lemma calls_silent t :
  Forall (fun e => is_call e = true) t -> responses t = [] /\ pushes t = [].
Proof.
  induction 1 as [|e t H _ [IH1 IH2]]; [now split|].
  destruct e; simpl in *; try discriminate; auto.
Qed.

Lemma reads_silent s a sch event w r w' t :
  reads s a sch event w = (r, w', t) -> responses t = [] /\ pushes t = [].
Proof.
  intros R. apply calls_silent. apply reads_calls in R.
  eapply Forall_impl; [|exact R]. simpl. tauto.
Qed.

(** *** One turn of the loop of [dispatch] *)

Lemma attempt_refresh_fails s ev st x w1 :
  refreshAccountability (accountability st (client s)) (world st) = (inl x, w1) ->
  attempt s ev st =
  (Ok tt, with_world w1 st,
   [CallRefresh (accountability st (client s));
    HandleException (client s) (Thrown x) "subscribe"]).
Proof.
  intros H. unfold attempt, try_catch, deliver. unfold_monad. simpl.
  now rewrite H.
Qed.

Lemma attempt_schema_fails s ev st fresh w1 x w2 :
  refreshAccountability (accountability st (client s)) (world st)
    = (inr fresh, w1) ->
  getSchema w1 = (inl x, w2) ->
  attempt s ev st =
  (Ok tt, with_world w2 (with_accountability (client s) fresh st),
   [CallRefresh (accountability st (client s)); CallGetSchema;
    HandleException (client s) (Thrown x) "subscribe"]).
Proof.
  intros H1 H2. unfold attempt, try_catch, deliver. unfold_monad. simpl.
  rewrite H1. simpl. now rewrite H2.
Qed.

Lemma attempt_reads s ev st fresh w1 sch w2 r w3 t :
  refreshAccountability (accountability st (client s)) (world st)
    = (inr fresh, w1) ->
  getSchema w1 = (inr sch, w2) ->
  reads s fresh sch (action_name (event_action ev)) w2 = (r, w3, t) ->
  attempt s ev st =
  (Ok tt, with_world w3 (with_accountability (client s) fresh st),
   CallRefresh (accountability st (client s)) :: CallGetSchema
     :: t ++ [outcome s r]).
Proof.
  intros H1 H2 H3. unfold attempt, try_catch, deliver. unfold_monad. simpl.
  rewrite H1. simpl. rewrite H2. simpl. rewrite Nat.eqb_refl.
  rewrite getPayload_frame. cbn [world with_world]. rewrite H3.
  destruct r; simpl; rewrite ?app_nil_r; reflexivity.
Qed.





(** Whatever happens in it, a turn ends normally, leaves the registry alone,
    acts for its subscription only and answers its client once. *)
Lemma attempt_total s ev st :
  exists st' t,
    attempt s ev st = (Ok tt, st', t) /\
    subscriptions st' = subscriptions st /\
    next_ref st' = next_ref st /\
    Forall (about s) t /\
    responses t = [client s].
Proof.
  destruct (refreshAccountability (accountability st (client s)) (world st))
    as [[x|fresh] w1] eqn:H1.
  { rewrite (attempt_refresh_fails s ev st x w1 H1).
    do 2 eexists. split; [reflexivity|]. simpl.
    repeat split; repeat constructor. }
  destruct (getSchema w1) as [[x|sch] w2] eqn:H2.
  { rewrite (attempt_schema_fails s ev st fresh w1 x w2 H1 H2).
    do 2 eexists. split; [reflexivity|]. simpl.
    repeat split; repeat constructor. }
  destruct (reads s fresh sch (action_name (event_action ev)) w2)
    as [[r w3] t] eqn:H3.
  rewrite (attempt_reads s ev st fresh w1 sch w2 r w3 t H1 H2 H3).
  do 2 eexists. split; [reflexivity|]. simpl.
  split; [reflexivity|]. split; [reflexivity|]. split.
  - constructor; [exact I|]. constructor; [exact I|]. apply Forall_app. split.
    + apply reads_calls in H3. eapply Forall_impl; [|exact H3]. simpl. tauto.
    + constructor; [|constructor]. destruct r; simpl; auto.
  - rewrite responses_app. apply reads_silent in H3 as [-> _].
    now destruct r.
Qed.

(** A turn reads the accountability of the clients and the world, nothing
    else of the state. *)
Lemma attempt_frame s ev st subs n :
  attempt s ev (mkState subs (accountability st) n (world st)) =
  let x := attempt s ev st in
  (result_of x,
   mkState subs (accountability (state_of x)) n (world (state_of x)),
   trace_of x).
Proof.
  destruct (refreshAccountability (accountability st (client s)) (world st))
    as [[x|fresh] w1] eqn:H1.
  { rewrite (attempt_refresh_fails s ev st x w1 H1).
    now rewrite (attempt_refresh_fails s ev (mkState subs _ n _) x w1 H1). }
  destruct (getSchema w1) as [[x|sch] w2] eqn:H2.
  { rewrite (attempt_schema_fails s ev st fresh w1 x w2 H1 H2).
    now rewrite (attempt_schema_fails s ev (mkState subs _ n _) _ _ _ _ H1 H2). }
  destruct (reads s fresh sch (action_name (event_action ev)) w2)
    as [[r w3] t] eqn:H3.
  rewrite (attempt_reads s ev st fresh w1 sch w2 r w3 t H1 H2 H3).
  now rewrite (attempt_reads s ev (mkState subs _ n _) _ _ _ _ _ _ _ H1 H2 H3).
Qed.

(** *** The loop of [dispatch] *)

Lemma dispatch_loop_total l ev : forall st,
  exists st' t,
    dispatch_loop l ev st = (Ok tt, st', t) /\
    subscriptions st' = subscriptions st /\
    next_ref st' = next_ref st /\
    Forall (fun e => exists s, In s l /\ about s e) t /\
    responses t = map client l.
Proof.
  induction l as [|s l IH]; intros st; simpl.
  - exists st, []. repeat split; constructor.
  - destruct (attempt_total s ev st) as (st1 & t1 & E1 & R1 & N1 & A1 & P1).
    destruct (IH st1) as (st2 & t2 & E2 & R2 & N2 & A2 & P2).
    exists st2, (t1 ++ t2). unfold bind. rewrite E1, E2.
    split; [reflexivity|]. split; [congruence|]. split; [congruence|]. split.
    + apply Forall_app. split.
      * eapply Forall_impl; [|exact A1]. intros e H. exists s. simpl. auto.
      * eapply Forall_impl; [|exact A2]. intros e (s' & I & H).
        exists s'. simpl. auto.
    + rewrite responses_app, P1, P2. reflexivity.
Qed.

Lemma dispatch_loop_split l1 s l2 ev : forall st,
  dispatch_loop (l1 ++ s :: l2) ev st =
  let x1 := dispatch_loop l1 ev st in
  let x2 := attempt s ev (state_of x1) in
  let x3 := dispatch_loop l2 ev (state_of x2) in
  (Ok tt, state_of x3, trace_of x1 ++ trace_of x2 ++ trace_of x3).
Proof.
  induction l1 as [|s1 l1 IH]; intros st; cbv zeta.
  - destruct (attempt_total s ev st) as (st1 & t1 & E1 & _).
    destruct (dispatch_loop_total l2 ev st1) as (st2 & t2 & E2 & _).
    simpl. unfold bind, ret, state_of, trace_of. simpl.
    rewrite !E1. simpl. rewrite !E2. reflexivity.
  - destruct (attempt_total s1 ev st) as (st1 & t1 & E1 & _).
    specialize (IH st1). cbv zeta in IH.
    destruct (dispatch_loop_total l1 ev st1) as (st2 & t2 & E2 & _).
    assert (E : dispatch_loop (s1 :: l1) ev st = (Ok tt, st2, t1 ++ t2)).
    { simpl. unfold bind. now rewrite E1, E2. }
    rewrite E.
    change (dispatch_loop ((s1 :: l1) ++ s :: l2) ev st)
      with (bind (attempt s1 ev) (fun _ => dispatch_loop (l1 ++ s :: l2) ev) st).
    unfold bind. rewrite E1, IH, E2. unfold state_of, trace_of. simpl.
    now rewrite app_assoc.
Qed.

Lemma dispatch_loop_frame l ev subs n : forall st,
  dispatch_loop l ev (mkState subs (accountability st) n (world st)) =
  let x := dispatch_loop l ev st in
  (result_of x,
   mkState subs (accountability (state_of x)) n (world (state_of x)),
   trace_of x).
Proof.
  induction l as [|s l IH]; intros st; simpl; [reflexivity|].
  unfold bind. rewrite attempt_frame. cbv zeta.
  destruct (attempt_total s ev st) as (st1 & t1 & E1 & _). rewrite E1.
  unfold result_of, state_of, trace_of. simpl.
  rewrite IH. cbv zeta.
  destruct (dispatch_loop_total l ev st1) as (st2 & t2 & E2 & _). rewrite E2.
  reflexivity.
Qed.

Lemma dispatch_unfold ev st :
  accepts (subscriptions st) (event_collection ev) = true ->
  dispatch ev st =
  dispatch_loop
    (Subscriptions.subscribersOf (subscriptions st) (event_collection ev))
    ev st.
Proof.
  unfold accepts, dispatch, bind, gets, Subscriptions.subscribersOf,
    Subscriptions.read.
  destruct (JsObject.get (subscriptions st) (event_collection ev)) as [l|].
  - intros _. now destruct (dispatch_loop l ev st) as [[r st2] t2].
  - destruct (Subscriptions.inherited (event_collection ev));
      [discriminate|reflexivity].
Qed.

(** Under the name of an inherited member that is no key of the registry the
    loop of [dispatch] is never entered: [for ... of] throws. *)
Lemma dispatch_inherited ev st :
  accepts (subscriptions st) (event_collection ev) = false ->
  dispatch ev st = (Throw not_iterable, st, []) /\
  Subscriptions.subscribersOf (subscriptions st) (event_collection ev) = [].
Proof.
  intros H. apply accepts_false in H as [G I].
  unfold dispatch, bind, gets, Subscriptions.subscribersOf,
    Subscriptions.read. now rewrite G, I.
Qed.


(** X22. Under a collection that the registry reads as a set of its own, or
    as nothing, a dispatch acts for the subscriptions registered under the
    collection of its event and for no other: it ends normally and leaves the
    registry as it was; every call it makes and every frame or error it hands
    to a client is made on behalf of one of these subscriptions; their clients
    are answered once each, in order; with no subscription under the
    collection it does nothing at all; what it does is the same in any state
    that holds the same subscriptions under that collection, whatever the
    other collections hold; and in a registry where the subscriptions sit
    under their own collection, it reads that collection only. *)
Theorem dispatch_reaches_only_its_collection ev st :
  accepts (subscriptions st) (event_collection ev) = true ->
  let subs :=
    Subscriptions.subscribersOf (subscriptions st) (event_collection ev) in
  exists st' t,
    run (dispatch ev) st = (Ok tt, st', t) /\
    subscriptions st' = subscriptions st /\
    Forall (fun e => exists s, In s subs /\ about s e) t /\
    responses t = map client subs /\
    (subs = [] -> st' = st /\ t = []) /\
    (forall st2,
       accepts (subscriptions st2) (event_collection ev) = true ->
       Subscriptions.subscribersOf (subscriptions st2) (event_collection ev)
         = subs ->
       accountability st2 = accountability st -> world st2 = world st ->
       trace_of (run (dispatch ev) st2) = t) /\
    (keyed (subscriptions st) ->
     Forall (reads_only (event_collection ev)) t).
Proof.
  intros Acc subs. unfold run. rewrite (dispatch_unfold ev st Acc). fold subs.
  destruct (dispatch_loop_total subs ev st) as (st' & t & E & R & N & A & P).
  exists st', t.
  split; [exact E|]. split; [exact R|]. split; [exact A|]. split; [exact P|].
  split; [|split].
  - intros H. rewrite H in E. simpl in E. unfold ret in E.
    split; congruence.
  - intros [subs2 a2 n2 w2]. simpl. intros A2 S2 -> ->.
    rewrite (dispatch_unfold ev (mkState subs2 (accountability st) n2
                                   (world st)) A2). simpl. rewrite S2.
    rewrite dispatch_loop_frame. cbv zeta. now rewrite E.
  - intros K. eapply Forall_impl; [|exact A].
    intros e (s & I & Ab). apply K in I.
    destruct e; simpl in *; try exact Logic.I; destruct Ab as [-> _];
      exact I.
Qed.


(** C8. In the turn of a subscription the accountability of its client is
    refreshed and the schema is fetched first; when either throws, the error
    is reported and nothing is read; otherwise every read of the turn is made
    under the accountability and the schema just obtained, and the turn ends
    with the frame built from these reads, or with their error. *)
Theorem dispatch_reads_under_refreshed_context ev st l1 s l2 :
  Subscriptions.subscribersOf (subscriptions st) (event_collection ev) = l1 ++ s :: l2 ->
  let before := run (dispatch_loop l1 ev) st in
  let old := accountability (state_of before) (client s) in
  exists turn after,
    trace_of (run (dispatch ev) st) = trace_of before ++ turn ++ after /\
    match refreshAccountability old (world (state_of before)) with
    | (inl x, _) =>
        turn = [CallRefresh old;
                HandleException (client s) (Thrown x) "subscribe"]
    | (inr fresh, w1) =>
        match getSchema w1 with
        | (inl x, _) =>
            turn = [CallRefresh old; CallGetSchema;
                    HandleException (client s) (Thrown x) "subscribe"]
        | (inr sch, w2) =>
            exists r w3 t,
              reads s fresh sch (action_name (event_action ev)) w2
                = (r, w3, t) /\
              Forall (read_under fresh sch) t /\
              turn = CallRefresh old :: CallGetSchema :: t ++ [outcome s r]
        end
    end.
Proof.
  intros H before old. unfold run in *.
  rewrite (dispatch_unfold ev st (accepts_of_subscribers _ _ _ _ _ H)).
  rewrite H, dispatch_loop_split. cbv zeta. fold before.
  unfold trace_of at 1. simpl.
  exists (trace_of (attempt s ev (state_of before))).
  eexists. split; [reflexivity|]. fold old.
  destruct (refreshAccountability old (world (state_of before)))
    as [[x|fresh] w1] eqn:H1.
  { now rewrite (attempt_refresh_fails s ev _ x w1 H1). }
  destruct (getSchema w1) as [[x|sch] w2] eqn:H2.
  { now rewrite (attempt_schema_fails s ev _ fresh w1 x w2 H1 H2). }
  destruct (reads s fresh sch (action_name (event_action ev)) w2)
    as [[r w3] t] eqn:H3.
  exists r, w3, t. split; [reflexivity|]. split.
  - apply reads_calls in H3. eapply Forall_impl; [|exact H3]. simpl. tauto.
  - now rewrite (attempt_reads s ev _ fresh w1 sch w2 r w3 t H1 H2 H3).
Qed.

(** *** SUBSCRIBE *)

(** A SUBSCRIBE whose collection is valid and whose query sanitizes: the
    subscriptions the request replaces are removed, the payload is read, and
    only then is the new subscription registered; under the name of an
    inherited member the registration throws, and its [TypeError] is reported
    instead of the initial frame. *)
Lemma onMessage_subscribe c coll it q u st sch w1 q' r w2 t :
  getSchema (world st) = (inr sch, w1) ->
  valid_collection (accountability st c) sch coll = true ->
  sanitized q (accountability st c) q' ->
  reads (candidate st c coll q' it u) (accountability st c) sch "init" w1
    = (r, w2, t) ->
  onMessage c (SUBSCRIBE coll it q u) st =
  (Ok tt,
   mkState
     (match r with
      | Ok _ =>
          if accepts (subscriptions st) coll
          then Invariants.added (candidate st c coll q' it u)
                 (Subscriptions.unsubscribe c u (subscriptions st))
          else Subscriptions.unsubscribe c u (subscriptions st)
      | Throw _ => Subscriptions.unsubscribe c u (subscriptions st)
      end)
     (accountability st) (S (next_ref st)) w2,
   CallGetSchema :: t ++
     match r with
     | Ok data =>
         if accepts (subscriptions st) coll then
           match it with
           | None => [Send c (fmtMessage "subscription" data u)]
           | Some _ => []
           end
         else [HandleException c add_is_not_a_function "subscribe"]
     | Throw e => [HandleException c e "subscribe"]
     end).
Proof.
  intros H1 V Q R.
  unfold valid_collection in V. apply negb_true_iff in V.
  unfold candidate in R.
  rewrite <- (accepts_unsubscribe c u (subscriptions st) coll).
  destruct q as [raw|]; simpl in Q;
    [destruct Q as (clean & Es & ->)|subst q'];
    unfold onMessage, try_catch, on_subscribe, new_object,
      unsubscribe, subscribe; unfold_monad; simpl;
    rewrite H1; simpl; rewrite V; rewrite ?Es; simpl;
    rewrite getPayload_frame; cbn [world with_subscriptions with_world];
    rewrite R;
    (destruct r as [data|e]; simpl; [|reflexivity]);
    match goal with
    | |- context [accepts ?subs coll] =>
        destruct (accepts subs coll) eqn:A;
        [rewrite (subscribe_accepts
                    (mkSubscription (next_ref st) c coll _ it u) subs A)
        |rewrite (subscribe_rejects
                    (mkSubscription (next_ref st) c coll _ it u) subs A)]
    end; simpl; rewrite ?app_nil_r; try reflexivity;
    destruct it; simpl; rewrite ?app_nil_r; reflexivity.
Qed.

(** A SUBSCRIBE for a collection that is neither in the schema nor asked for
    by an admin: the error goes to the client, the registry is untouched. *)
Lemma onMessage_invalid_collection c coll it q u st sch w1 :
  getSchema (world st) = (inr sch, w1) ->
  valid_collection (accountability st c) sch coll = false ->
  onMessage c (SUBSCRIBE coll it q u) st =
  (Ok tt, with_world w1 st,
   [CallGetSchema;
    HandleException c
      (WebSocketException "subscribe" "INVALID_COLLECTION"
         "The provided collection does not exists or is not accessible." u)
      "subscribe"]).
Proof.
  intros H1 V.
  unfold onMessage, try_catch, on_subscribe. unfold_monad. simpl.
  rewrite H1. simpl.
  unfold valid_collection in V. apply negb_false_iff in V. now rewrite V.
Qed.

(** C4. A SUBSCRIBE whose collection is valid: the new subscription is in the
    registry afterwards only when its initial read succeeded, and exactly
    when, besides, the registry takes a set under its collection.  When the
    read throws, the registry is what removing the replaced subscriptions
    left, nothing was pushed, and the error is reported to the requesting
    client and to nobody else. *)
Theorem subscribe_registers_only_after_its_read
    c coll it q u st sch w1 q' r w2 t :
  getSchema (world st) = (inr sch, w1) ->
  valid_collection (accountability st c) sch coll = true ->
  sanitized q (accountability st c) q' ->
  refs_below (next_ref st) (subscriptions st) ->
  reads (candidate st c coll q' it u) (accountability st c) sch "init" w1
    = (r, w2, t) ->
  let s := candidate st c coll q' it u in
  let x := run (onMessage c (SUBSCRIBE coll it q u)) st in
  result_of x = Ok tt /\
  ((exists k, In s (Subscriptions.subscribersOf (subscriptions (state_of x)) k))
   <-> (exists data, r = Ok data) /\
       accepts (subscriptions st) coll = true) /\
  (forall e, r = Throw e ->
     subscriptions (state_of x)
       = Subscriptions.unsubscribe c u (subscriptions st) /\
     trace_of x = CallGetSchema :: t ++ [HandleException c e "subscribe"] /\
     responses (trace_of x) = [c] /\
     pushes (trace_of x) = []).
Proof.
  intros H1 V Q B R s x. subst x. unfold run.
  rewrite (onMessage_subscribe c coll it q u st sch w1 q' r w2 t H1 V Q R).
  unfold result_of, state_of, trace_of. simpl. split; [reflexivity|].
  assert (F : forall k y,
             In y (Subscriptions.subscribersOf
                     (Subscriptions.unsubscribe c u (subscriptions st)) k) ->
             ref y < ref s).
  { intros k y I. apply unsubscribe_subset in I. now apply B in I. }
  split.
  - destruct r as [data|e];
      [destruct (accepts (subscriptions st) coll) eqn:A|]; split.
    + intros _. split; [now exists data|reflexivity].
    + intros _. exists coll. rewrite subscribersOf_subscribe. fold s.
      simpl. rewrite String.eqb_refl, (set_add_fresh s _ (F coll)).
      apply in_or_app. right. now left.
    + intros (k & I). apply F in I. lia.
    + intros [_ D]. discriminate.
    + intros (k & I). apply F in I. lia.
    + intros [(data & D) _]. discriminate.
  - intros e ->. split; [reflexivity|]. split; [reflexivity|].
    destruct (reads_silent _ _ _ _ _ _ _ _ R) as [S1 S2].
    rewrite responses_app, pushes_app, S1, S2. now split.
Qed.


(** C5, as the code has it. A SUBSCRIBE for one item whose collection is
    valid, whose initial read succeeds and under whose collection the
    registry takes a set registers the subscription and says nothing to the
    client: the payload that was read is not sent.  When the
    client holds no other subscription under that collection, a later event
    on the collection whose refresh, schema fetch and read succeed pushes to
    that client exactly one frame: the payload tagged with the action of the
    event, holding the item as [readOne] returns it then, under the uid of the
    subscription. *)
Theorem single_item_subscribe_is_silent_then_pushed
    c coll id q u st sch w1 q' data w2 t ev w' fresh wa sch' wb res wc t' :
  getSchema (world st) = (inr sch, w1) ->
  valid_collection (accountability st c) sch coll = true ->
  sanitized q (accountability st c) q' ->
  refs_below (next_ref st) (subscriptions st) ->
  reads (candidate st c coll q' (Some id) u) (accountability st c) sch
    "init" w1 = (Ok data, w2, t) ->
  accepts (subscriptions st) coll = true ->
  let s := candidate st c coll q' (Some id) u in
  let x := run (onMessage c (SUBSCRIBE coll (Some id) q u)) st in
  let others :=
    Subscriptions.subscribersOf
      (Subscriptions.unsubscribe c u (subscriptions st)) coll in
  (forall s', In s' others -> client s' <> c) ->
  event_collection ev = coll ->
  let before := run (dispatch_loop others ev) (with_world w' (state_of x)) in
  let old := accountability (state_of before) c in
  refreshAccountability old (world (state_of before)) = (inr fresh, wa) ->
  getSchema wa = (inr sch', wb) ->
  reads s fresh sch' (action_name (event_action ev)) wb = (Ok res, wc, t') ->
  let y := run (dispatch ev) (with_world w' (state_of x)) in
  (trace_of x = CallGetSchema :: t /\
   responses (trace_of x) = [] /\
   pushes (trace_of x) = [] /\
   Subscriptions.subscribersOf (subscriptions (state_of x)) coll
     = others ++ [s]) /\
  (trace_of y =
     trace_of before ++
     CallRefresh old :: CallGetSchema :: t' ++
       [Send c (fmtMessage "subscription" res u)] /\
   pushes_to c (trace_of y) = [(c, fmtMessage "subscription" res u)] /\
   prop res "event" = JStr (action_name (event_action ev)) /\
   exists w,
     readOne coll sch' fresh id (query_of s) wb
       = (inr (prop res "payload"), w)).
Proof.
  intros H1 V Q B R Acc s x others O C before old H2 H3 R' y.
  assert (X : x =
    (Ok tt,
     mkState
       (Invariants.added s
          (Subscriptions.unsubscribe c u (subscriptions st)))
       (accountability st) (S (next_ref st)) w2,
     CallGetSchema :: t)).
  { subst x. unfold run.
    rewrite (onMessage_subscribe c coll (Some id) q u st sch w1 q'
               (Ok data) w2 t H1 V Q R).
    rewrite Acc. now rewrite app_nil_r. }
  assert (L : Subscriptions.subscribersOf (subscriptions (state_of x)) coll
              = others ++ [s]).
  { rewrite X. unfold state_of. simpl. rewrite subscribersOf_subscribe.
    simpl. rewrite String.eqb_refl. apply set_add_fresh.
    intros z I. apply unsubscribe_subset in I. now apply B in I. }
  destruct (reads_silent _ _ _ _ _ _ _ _ R) as [S1 S2].
  split.
  { rewrite X at 1 2 3. unfold trace_of. simpl. now rewrite S1, S2. }
  assert (Y : trace_of y =
    trace_of before ++
    CallRefresh old :: CallGetSchema :: t' ++
      [Send c (fmtMessage "subscription" res u)]).
  { subst y. unfold run.
    rewrite dispatch_unfold;
      change (subscriptions (with_world w' (state_of x)))
        with (subscriptions (state_of x));
      rewrite C; [|exact (accepts_of_subscribers _ _ _ _ _ L)].
    rewrite L, dispatch_loop_split. cbv zeta.
    change (dispatch_loop others ev (with_world w' (state_of x))) with before.
    rewrite (attempt_reads s ev (state_of before) fresh wa sch' wb
               (Ok res) wc t' H2 H3 R').
    unfold trace_of. simpl. now rewrite app_nil_r. }
  split; [exact Y|]. split.
  - rewrite Y. unfold pushes_to. rewrite pushes_app, filter_app.
    destruct (reads_silent _ _ _ _ _ _ _ _ R') as [_ S3].
    simpl. rewrite pushes_app, S3. simpl. rewrite Nat.eqb_refl.
    replace (filter _ (pushes (trace_of before))) with (@nil (Client * Frame));
      [reflexivity|].
    symmetry. subst before. unfold run.
    destruct (dispatch_loop_total others ev (with_world w' (state_of x)))
      as (st2 & t2 & E & _ & _ & A & _).
    rewrite E. unfold trace_of. simpl. clear E.
    induction A as [|e t2 (s' & I & Ab) _ IH]; [reflexivity|].
    destruct e; simpl; try exact IH.
    destruct Ab as (-> & _). apply O in I. apply Nat.eqb_neq in I.
    rewrite I. exact IH.
  - apply (reads_single s id _ _ _ _ _ _ _ eq_refl R').
Qed.

(** A SUBSCRIBE under a uid whose lookup ends at a subscription of the
    requesting client: that subscription is removed, whether the read then
    succeeds or throws. *)
Lemma resubscribe_own_match c coll it q x st sch w1 q' r w2 t old :
  getSchema (world st) = (inr sch, w1) ->
  valid_collection (accountability st c) sch coll = true ->
  sanitized q (accountability st c) q' ->
  reads (candidate st c coll q' it (Some x)) (accountability st c) sch
    "init" w1 = (r, w2, t) ->
  Subscriptions.getSubscription x (subscriptions st) = Some old ->
  client old = c ->
  subscriptions (state_of (run (onMessage c (SUBSCRIBE coll it q (Some x))) st))
  = match r with
    | Ok _ =>
        if accepts (subscriptions st) coll
        then Invariants.added (candidate st c coll q' it (Some x))
               (Subscriptions.delete_at (collection old) old
                  (subscriptions st))
        else Subscriptions.delete_at (collection old) old (subscriptions st)
    | Throw _ =>
        Subscriptions.delete_at (collection old) old (subscriptions st)
    end.
Proof.
  intros H1 V Q R G O. unfold run.
  rewrite (onMessage_subscribe c coll it q (Some x) st sch w1 q' r w2 t
             H1 V Q R).
  unfold state_of. cbn [fst snd subscriptions].
  now rewrite (@unsubscribe_uid_found c x (subscriptions st) old G O).
Qed.

(** *** The registry stays well formed *)

Lemma onMessage_schema_fails c coll it q u st x w1 :
  getSchema (world st) = (inl x, w1) ->
  onMessage c (SUBSCRIBE coll it q u) st =
  (Ok tt, with_world w1 st,
   [CallGetSchema; HandleException c (Thrown x) "subscribe"]).
Proof.
  intros H1.
  unfold onMessage, try_catch, on_subscribe. unfold_monad. simpl.
  now rewrite H1.
Qed.

Lemma onMessage_sanitize_fails c coll it raw u st sch w1 x :
  getSchema (world st) = (inr sch, w1) ->
  valid_collection (accountability st c) sch coll = true ->
  sanitizeQuery raw (accountability st c) = inl x ->
  onMessage c (SUBSCRIBE coll it (Some raw) u) st =
  (Ok tt,
   mkState (subscriptions st) (accountability st) (S (next_ref st)) w1,
   [CallGetSchema; HandleException c (Thrown x) "subscribe"]).
Proof.
  intros H1 V Q. unfold valid_collection in V. apply negb_true_iff in V.
  unfold onMessage, try_catch, on_subscribe, new_object. unfold_monad. simpl.
  rewrite H1. simpl. rewrite V, Q. reflexivity.
Qed.

Lemma onMessage_well_formed c m st :
  well_formed (next_ref st) (subscriptions st) ->
  well_formed (next_ref (state_of (run (onMessage c m) st)))
    (subscriptions (state_of (run (onMessage c m) st))).
Proof.
  intros W. unfold run. destruct m as [coll it q u|u].
  2:{ exact (unsubscribe_well_formed c u W). }
  destruct (getSchema (world st)) as [[x|sch] w1] eqn:H1.
  { now rewrite (onMessage_schema_fails c coll it q u st x w1 H1). }
  destruct (valid_collection (accountability st c) sch coll) eqn:V.
  2:{ now rewrite (onMessage_invalid_collection c coll it q u st sch w1 H1 V). }
  assert (Q : (exists raw x, q = Some raw /\
                 sanitizeQuery raw (accountability st c) = inl x) \/
              exists q', sanitized q (accountability st c) q').
  { destruct q as [raw|]; [|right; now exists None].
    destruct (sanitizeQuery raw (accountability st c)) as [x|clean] eqn:E.
    - left. now exists raw, x.
    - right. exists (Some clean). now exists clean. }
  destruct Q as [(raw & x & -> & Q)|(q' & Q)].
  { rewrite (onMessage_sanitize_fails c coll it raw u st sch w1 x H1 V Q).
    now apply well_formed_later. }
  destruct (reads (candidate st c coll q' it u) (accountability st c) sch
              "init" w1) as [[r w2] t] eqn:R.
  rewrite (onMessage_subscribe c coll it q u st sch w1 q' r w2 t H1 V Q R).
  unfold state_of. cbn [fst snd subscriptions next_ref].
  destruct r as [data|e];
    [destruct (accepts (subscriptions st) coll)|].
  - apply (subscribe_well_formed (candidate st c coll q' it u)).
    now apply unsubscribe_well_formed.
  - apply well_formed_later. now apply unsubscribe_well_formed.
  - apply well_formed_later. now apply unsubscribe_well_formed.
Qed.

Lemma step_well_formed x st :
  well_formed (next_ref st) (subscriptions st) ->
  well_formed (next_ref (state_of (run (step x) st)))
    (subscriptions (state_of (run (step x) st))).
Proof.
  intros W. destruct x as [c m|c|ev]; simpl.
  - now apply onMessage_well_formed.
  - exact (unsubscribe_well_formed c None W).
  - unfold run.
    destruct (accepts (subscriptions st) (event_collection ev)) eqn:A.
    2:{ destruct (dispatch_inherited ev st A) as [-> _]. exact W. }
    rewrite (dispatch_unfold ev st A).
    destruct (dispatch_loop_total
                (Subscriptions.subscribersOf (subscriptions st)
                   (event_collection ev)) ev st) as (st' & t & E & R & N & _).
    rewrite E. unfold state_of. simpl. now rewrite R, N.
Qed.

(** Whatever the clients send and whatever events arrive, a handler that
    started without subscriptions holds a well formed registry. *)
Lemma steps_well_formed l : forall st,
  well_formed (next_ref st) (subscriptions st) ->
  well_formed (next_ref (state_of (run (steps l) st)))
    (subscriptions (state_of (run (steps l) st))).
Proof.
  induction l as [|x l IH]; intros st W; [exact W|].
  specialize (IH _ (step_well_formed x st W)).
  unfold run, state_of in *. simpl. unfold bind, try_catch, ret.
  destruct (step x st) as [[[[]|e] st1] t1]; simpl in *;
    destruct (steps l st1) as [[r st2] t2]; exact IH.
Qed.

Lemma empty_well_formed n : well_formed n [].
Proof.
  repeat split.
  - intros k l. discriminate.
  - intros k s [].
  - intros k s [].
Qed.

(** *** Every way a message can go *)

Lemma reads_quiet s a sch event w r w' t :
  reads s a sch event w = (r, w', t) ->
  Forall (fun e => is_refresh e = false /\ is_schema e = false) t.
Proof.
  intros R. apply reads_calls in R. eapply Forall_impl; [|exact R].
  intros e (_ & _ & U). destruct e; simpl in *; tauto.
Qed.

(** A message always ends normally; it leaves the accountability of every
    client alone and never refreshes it; the registry is left as it was, or
    with the removal for the uid of the message, or with that removal and the
    new subscription. *)
Lemma onMessage_outcome c m st :
  exists st' t,
    onMessage c m st = (Ok tt, st', t) /\
    accountability st' = accountability st /\
    next_ref st <= next_ref st' /\
    Forall (fun e => is_refresh e = false /\ reads_as (accountability st c) e)
      t /\
    (subscriptions st' = subscriptions st \/
     subscriptions st'
       = Subscriptions.unsubscribe c (message_uid m) (subscriptions st) \/
     exists coll it q q',
       m = SUBSCRIBE coll it q (message_uid m) /\
       subscriptions st'
         = Invariants.added
             (candidate st c coll q' it (message_uid m))
             (Subscriptions.unsubscribe c (message_uid m) (subscriptions st))).
Proof.
  destruct m as [coll it q u|u].
  2:{ do 2 eexists. split; [reflexivity|]. simpl.
      repeat split; auto; repeat constructor. }
  destruct (getSchema (world st)) as [[x|sch] w1] eqn:H1.
  { rewrite (onMessage_schema_fails c coll it q u st x w1 H1).
    do 2 eexists. split; [reflexivity|]. simpl.
    repeat split; auto; repeat constructor. }
  destruct (valid_collection (accountability st c) sch coll) eqn:V.
  2:{ rewrite (onMessage_invalid_collection c coll it q u st sch w1 H1 V).
      do 2 eexists. split; [reflexivity|]. simpl.
      repeat split; auto; repeat constructor. }
  assert (Q : (exists raw x, q = Some raw /\
                 sanitizeQuery raw (accountability st c) = inl x) \/
              exists q', sanitized q (accountability st c) q').
  { destruct q as [raw|]; [|right; now exists None].
    destruct (sanitizeQuery raw (accountability st c)) as [x|clean] eqn:E.
    - left. now exists raw, x.
    - right. exists (Some clean). now exists clean. }
  destruct Q as [(raw & x & -> & Q)|(q' & Q)].
  { rewrite (onMessage_sanitize_fails c coll it raw u st sch w1 x H1 V Q).
    do 2 eexists. split; [reflexivity|]. simpl.
    repeat split; auto; repeat constructor. }
  destruct (reads (candidate st c coll q' it u) (accountability st c) sch
              "init" w1) as [[r w2] t] eqn:R.
  rewrite (onMessage_subscribe c coll it q u st sch w1 q' r w2 t H1 V Q R).
  do 2 eexists. split; [reflexivity|]. cbn [accountability next_ref subscriptions].
  split; [reflexivity|]. split; [lia|]. split.
  - constructor; [now split|]. apply Forall_app. split.
    + apply reads_calls in R. eapply Forall_impl; [|exact R].
      intros e (_ & _ & H). destruct e; simpl in *; tauto.
    + destruct r as [data|e];
        [destruct (accepts (subscriptions st) coll); [destruct it|]|];
        repeat constructor.
  - destruct r as [data|e];
      [destruct (accepts (subscriptions st) coll)|].
    + right. right. now exists coll, it, q, q'.
    + right. now left.
    + right. now left.
Qed.

Lemma sound_mono n m subs : n <= m -> sound n subs -> sound m subs.
Proof.
  induction 1; [tauto|]. intros S. apply sound_later. auto.
Qed.

Lemma onMessage_sound c m st :
  sound (next_ref st) (subscriptions st) ->
  sound (next_ref (state_of (onMessage c m st)))
    (subscriptions (state_of (onMessage c m st))).
Proof.
  intros S.
  destruct m as [coll it q u|u].
  2:{ exact (unsubscribe_sound c u S). }
  destruct (getSchema (world st)) as [[x|sch] w1] eqn:H1.
  { now rewrite (onMessage_schema_fails c coll it q u st x w1 H1). }
  destruct (valid_collection (accountability st c) sch coll) eqn:V.
  2:{ now rewrite (onMessage_invalid_collection c coll it q u st sch w1 H1 V). }
  assert (Q : (exists raw x, q = Some raw /\
                 sanitizeQuery raw (accountability st c) = inl x) \/
              exists q', sanitized q (accountability st c) q').
  { destruct q as [raw|]; [|right; now exists None].
    destruct (sanitizeQuery raw (accountability st c)) as [x|clean] eqn:E.
    - left. now exists raw, x.
    - right. exists (Some clean). now exists clean. }
  destruct Q as [(raw & x & -> & Q)|(q' & Q)].
  { rewrite (onMessage_sanitize_fails c coll it raw u st sch w1 x H1 V Q).
    now apply sound_later. }
  destruct (reads (candidate st c coll q' it u) (accountability st c) sch
              "init" w1) as [[r w2] t] eqn:R.
  rewrite (onMessage_subscribe c coll it q u st sch w1 q' r w2 t H1 V Q R).
  unfold state_of. cbn [fst snd subscriptions next_ref].
  destruct r as [data|e];
    [destruct (accepts (subscriptions st) coll)|].
  - apply (subscribe_sound (candidate st c coll q' it u)).
    exact (unsubscribe_sound c u S).
  - apply sound_later. exact (unsubscribe_sound c u S).
  - apply sound_later. exact (unsubscribe_sound c u S).
Qed.

Lemma step_sound x st :
  sound (next_ref st) (subscriptions st) ->
  sound (next_ref (state_of (step x st)))
    (subscriptions (state_of (step x st))).
Proof.
  intros S. destruct x as [c m|c|ev]; simpl.
  - now apply onMessage_sound.
  - exact (unsubscribe_sound c None S).
  - destruct (accepts (subscriptions st) (event_collection ev)) eqn:A.
    2:{ destruct (dispatch_inherited ev st A) as [-> _]. exact S. }
    rewrite (dispatch_unfold ev st A).
    destruct (dispatch_loop_total
                (Subscriptions.subscribersOf (subscriptions st)
                   (event_collection ev)) ev st) as (st' & t & E & R & N & _).
    rewrite E. unfold state_of. simpl. now rewrite R, N.
Qed.

Lemma empty_sound n : sound n [].
Proof. split; [apply empty_well_formed|constructor]. Qed.

(** *** The action hooks *)

Lemma append_snoc (a : string) (c : ascii) (b : string) :
  ((a ++ String c EmptyString) ++ b)%string = (a ++ String c b)%string.
Proof. induction a as [|x a IH]; simpl; [reflexivity|now rewrite IH]. Qed.

Lemma split_from_no_dot k : forall cur,
  no_dot k = true -> split_from "." cur k = [(cur ++ k)%string].
Proof.
  induction k as [|x k IH]; intros cur H; simpl.
  - f_equal. induction cur as [|y cur IHc]; simpl; [reflexivity|].
    now f_equal.
  - simpl in H. apply andb_prop in H as [H1 H2].
    apply negb_true_iff in H1. rewrite H1, (IH _ H2).
    now rewrite append_snoc.
Qed.

(** The last segment of [module + '.' + kind] is [kind], whatever dots the
    name of the module has. *)
Lemma pop_split_suffix k m : forall cur,
  no_dot k = true ->
  pop (split_from "." cur (m ++ String "." k)) = Some k.
Proof.
  induction m as [|x m IH]; intros cur H; simpl.
  - now rewrite (split_from_no_dot k EmptyString H).
  - destruct (Ascii.eqb x "."); [|now apply IH].
    specialize (IH EmptyString H).
    destruct (split_from "." EmptyString (m ++ String "." k)); [discriminate|].
    exact IH.
Qed.

(** C7. Every hook that [bindModules] registers listens to
    [module + '.' + kind] for one of the modules and one of the three kinds of
    mutation; fired with [args], it publishes on [websocket.event] one message
    whose action is that kind, whose collection is the collection of [args],
    whose payload is the payload of [args], or the empty record when [args]
    has none, and which carries the [key] of [args] for a create and the
    [keys] of [args] for an update or a delete. *)
Theorem hooks_publish_the_mutation ms h args st :
  In h (bindModules ms) ->
  exists module kind,
    In module ms /\
    hook_event h = (module ++ "." ++ action_name kind)%string /\
    run (fire h args) st
      = (Ok tt, st, [Publish "websocket.event" (hook_message h args)]) /\
    prop (hook_message h args) "action" = JStr (action_name kind) /\
    prop (hook_message h args) "collection" = prop args "collection" /\
    prop (hook_message h args) "payload"
      = nullish (prop args "payload") (JObj []) /\
    match kind with
    | create =>
        JsObject.get (hook_message h args) "key" = Some (prop args "key") /\
        JsObject.has "keys" (hook_message h args) = false
    | update | delete =>
        JsObject.get (hook_message h args) "keys" = Some (prop args "keys") /\
        JsObject.has "key" (hook_message h args) = false
    end.
Proof.
  intros H. unfold bindModules in H. apply in_flat_map in H as (m & M & H).
  exists m.
  destruct H as [<-|[<-|[<-|[]]]];
    [exists create|exists update|exists delete];
    (split; [exact M|]); (split; [reflexivity|]); (split; [reflexivity|]);
    unfold hook_message, split; cbn [hook_event hook_mutator];
    rewrite pop_split_suffix by reflexivity;
    repeat split; reflexivity.
Qed.

(** ** Further properties of the registry and of the messages *)

Lemma find_exists {A} (f : A -> bool) l x :
  In x l -> f x = true -> exists y, find f l = Some y.
Proof.
  intros I F. destruct (find f l) as [y|] eqn:E; [now exists y|].
  apply (find_none _ _ E) in I. congruence.
Qed.

Lemma set_add_idem s l : set_add s (set_add s l) = set_add s l.
Proof.
  unfold set_add at 2.
  destruct (existsb (fun x => ref x =? ref s) l) eqn:E.
  - unfold set_add. now rewrite E.
  - unfold set_add. rewrite existsb_app, E. simpl.
    now rewrite Nat.eqb_refl.
Qed.

Lemma sets_distinct_unsubscribe_all c subs :
  sets_distinct subs -> sets_distinct (Subscriptions.unsubscribe c None subs).
Proof.
  intros W k l. rewrite (get_unsubscribe_all c k W).
  destruct (JsObject.get subs k) as [l0|] eqn:E; simpl; [|discriminate].
  intros [= <-]. apply distinct_filter. now apply (W k).
Qed.

(** X1. [getSubscription(uid)] answers with a registered subscription that
    carries the uid, whoever owns it, and with [undefined] only when no
    registered subscription carries it. *)
Theorem lookup_by_uid_is_sound_and_complete u subs :
  NoDup (JsObject.keys subs) ->
  match Subscriptions.getSubscription u subs with
  | Some s => registered subs s /\ uid s = Some u
  | None => forall s, registered subs s -> uid s <> Some u
  end.
Proof.
  intros D. destruct (Subscriptions.getSubscription u subs) as [s|] eqn:G.
  - apply getSubscription_some in G as [U I]. split; [|exact U].
    now apply values_registered.
  - intros s R. apply (@getSubscription_none u subs s G).
    now apply registered_in_values.
Qed.

(** X2. [subscribe(subscription)] with a new object throws its [TypeError]
    exactly when the collection is named like an inherited member and the
    registry has no key for it, and then nothing was registered.  Otherwise
    the object becomes the last of the set of its collection, which is
    created when the collection had none; no other set changes and no key is
    lost; registering the same object once more succeeds and changes nothing;
    and a lookup by its uid now finds a subscription with that uid. *)
Theorem subscribe_adds_to_its_collection s subs :
  refs_below (ref s) subs ->
  match Subscriptions.subscribe s subs with
  | None =>
      Subscriptions.inherited (collection s) = true /\
      ~ In (collection s) (JsObject.keys subs)
  | Some subs' =>
      (Subscriptions.inherited (collection s) = false \/
       In (collection s) (JsObject.keys subs)) /\
      (forall k,
         Subscriptions.subscribersOf subs' k =
         if String.eqb (collection s) k
         then Subscriptions.subscribersOf subs k ++ [s]
         else Subscriptions.subscribersOf subs k) /\
      In (collection s) (JsObject.keys subs') /\
      (forall k, In k (JsObject.keys subs) -> In k (JsObject.keys subs')) /\
      (exists subs'',
         Subscriptions.subscribe s subs' = Some subs'' /\
         forall k,
           Subscriptions.subscribersOf subs'' k =
           Subscriptions.subscribersOf subs' k) /\
      (forall u, uid s = Some u ->
         exists s',
           Subscriptions.getSubscription u subs' = Some s' /\
           uid s' = Some u)
  end.
Proof.
  intros B.
  destruct (accepts subs (collection s)) eqn:Acc.
  2:{ rewrite (subscribe_rejects s subs Acc).
      apply accepts_false in Acc as [G I]. split; [exact I|].
      now apply JsObjectFacts.get_none_keys. }
  rewrite (subscribe_accepts s subs Acc).
  assert (A : forall k,
             Subscriptions.subscribersOf (Invariants.added s subs) k =
             if String.eqb (collection s) k
             then Subscriptions.subscribersOf subs k ++ [s]
             else Subscriptions.subscribersOf subs k).
  { intros k. rewrite subscribersOf_subscribe.
    destruct (String.eqb (collection s) k); [|reflexivity].
    apply set_add_fresh. intros y I. now apply B in I. }
  assert (G : JsObject.get (Invariants.added s subs) (collection s)
              = Some (set_add s
                        (Subscriptions.subscribersOf subs (collection s)))).
  { now rewrite get_subscribe, String.eqb_refl. }
  split; [|split; [exact A|split; [|split; [|split]]]].
  - unfold accepts, Subscriptions.read in Acc.
    destruct (JsObject.get subs (collection s)) as [l|] eqn:E.
    + right. now apply JsObjectFacts.get_in_keys in E.
    + left. now destruct (Subscriptions.inherited (collection s)).
  - now apply JsObjectFacts.get_in_keys in G.
  - intros k I. unfold Invariants.added.
    destruct (JsObject.get subs (collection s)) as [l|] eqn:E.
    + rewrite E. apply JsObjectFacts.in_keys_set. now right.
    + rewrite JsObjectFacts.get_set_same.
      apply JsObjectFacts.in_keys_set. right.
      apply JsObjectFacts.in_keys_set. now right.
  - exists (Invariants.added s (Invariants.added s subs)). split.
    + apply subscribe_accepts. now apply accepts_get in G.
    + intros k.
      rewrite (subscribersOf_subscribe s (Invariants.added s subs)).
      destruct (String.eqb (collection s) k) eqn:E; [|reflexivity].
      rewrite subscribersOf_subscribe, E. apply set_add_idem.
  - intros u U.
    assert (I : In s (List.concat
                       (JsObject.values (Invariants.added s subs)))).
    { apply registered_in_values. exists (collection s).
      rewrite A, String.eqb_refl. apply in_or_app. right. now left. }
    destruct (find_exists (fun y => uid_eqb (uid y) (Some u)) _ s I)
      as (s' & F); [now apply uid_eqb_eq|].
    exists s'. split; [exact F|].
    now apply getSubscription_some in F.
Qed.

(** X3. UNSUBSCRIBE with a uid under which the client holds no subscription,
    whoever else holds one: nothing is removed, nothing is sent, no error is
    raised; the state is the one before. *)
Theorem unsubscribe_unknown_uid_changes_nothing c x st :
  NoDup (JsObject.keys (subscriptions st)) ->
  (forall s, registered (subscriptions st) s -> client s = c ->
             uid s <> Some x) ->
  run (onMessage c (UNSUBSCRIBE (Some x))) st = (Ok tt, st, []).
Proof.
  intros D H. unfold run, onMessage, unsubscribe, modify.
  rewrite unsubscribe_unknown_uid.
  - now destruct st.
  - intros s I U O. apply (H s); auto. now apply values_registered.
Qed.

(** X4. UNSUBSCRIBE with a uid whose lookup ends at a subscription of the
    client: that object leaves the registry and every other subscription, of
    this client and of the others, stays where it was; nothing is sent. *)
Theorem unsubscribe_own_uid_removes_that_one c x st s :
  sound (next_ref st) (subscriptions st) ->
  Subscriptions.getSubscription x (subscriptions st) = Some s ->
  client s = c ->
  let r := run (onMessage c (UNSUBSCRIBE (Some x))) st in
  result_of r = Ok tt /\ trace_of r = [] /\
  registered (subscriptions st) s /\ uid s = Some x /\
  forall k y,
    In y (Subscriptions.subscribersOf (subscriptions (state_of r)) k) <->
    In y (Subscriptions.subscribersOf (subscriptions st) k) /\ y <> s.
Proof.
  intros S G O r.
  pose proof (getSubscription_some _ _ G) as [U I].
  apply (values_registered _ _ (proj2 S)) in I.
  split; [reflexivity|]. split; [reflexivity|].
  split; [exact I|]. split; [exact U|].
  intros k y. subst r. unfold run, state_of. simpl.
  rewrite G, O, Nat.eqb_refl. now apply (in_delete_registered k y S).
Qed.

(** X5. A closed or failed connection, or an UNSUBSCRIBE without uid: every
    subscription of the client is removed, in every collection; those of the
    other clients stay, in their order; no collection leaves the registry;
    nothing is sent; and doing it again changes nothing. *)
Theorem close_removes_all_of_the_client c st :
  sets_distinct (subscriptions st) ->
  let r := run (onClose c) st in
  run (onMessage c (UNSUBSCRIBE None)) st = r /\
  result_of r = Ok tt /\ trace_of r = [] /\
  JsObject.keys (subscriptions (state_of r))
    = JsObject.keys (subscriptions st) /\
  (forall k,
     Subscriptions.subscribersOf (subscriptions (state_of r)) k =
     filter (kept c) (Subscriptions.subscribersOf (subscriptions st) k)) /\
  (forall k,
     Subscriptions.subscribersOf
       (subscriptions (state_of (run (onClose c) (state_of r)))) k =
     Subscriptions.subscribersOf (subscriptions (state_of r)) k).
Proof.
  intros W r. split; [reflexivity|]. split; [reflexivity|].
  split; [reflexivity|]. subst r. unfold run, state_of, onClose, unsubscribe,
    modify. cbn [fst snd subscriptions with_subscriptions].
  split; [apply keys_unsubscribe|]. split.
  - intros k. apply (subscribersOf_unsubscribe_all c k W).
  - intros k.
    rewrite (subscribersOf_unsubscribe_all c k
               (sets_distinct_unsubscribe_all c _ W)).
    rewrite (subscribersOf_unsubscribe_all c k W). apply filter_idem.
Qed.

(** X6. Whatever a client sends, the subscriptions of every other client
    stay in the registry as they were: a message adds and removes
    subscriptions of its sender only. *)
Theorem message_leaves_other_clients_alone c m st c' k :
  sound (next_ref st) (subscriptions st) -> c' <> c ->
  filter (owned_by c')
    (Subscriptions.subscribersOf
       (subscriptions (state_of (run (onMessage c m) st))) k) =
  filter (owned_by c') (Subscriptions.subscribersOf (subscriptions st) k).
Proof.
  intros S N. unfold run.
  destruct (onMessage_outcome c m st) as (st' & t & E & _ & _ & _ & H).
  rewrite E. unfold state_of. cbn [fst snd].
  destruct H as [->|[->|(coll & it & q & q' & _ & ->)]].
  - reflexivity.
  - now apply (unsubscribe_others _ k S).
  - rewrite subscribersOf_subscribe.
    change (collection (candidate st c coll q' it (message_uid m))) with coll.
    destruct (String.eqb coll k);
      [|now apply (unsubscribe_others _ k S)].
    rewrite set_add_fresh.
    + rewrite filter_app. simpl. unfold owned_by at 2. simpl.
      rewrite (Nat.eqb_sym c c'), (proj2 (Nat.eqb_neq c' c) N), app_nil_r.
      now apply (unsubscribe_others _ k S).
    + intros y I. apply unsubscribe_subset in I.
      apply (proj1 (proj2 (proj1 S))) in I. exact I.
Qed.

(** X8. Whatever the clients send, whichever connections close and whatever
    events arrive, in whatever order, the registry of a handler that started
    empty is sound: every set holds distinct objects, each under the key of
    its own collection, all allocated before, and no key occurs twice. *)
Theorem handler_registry_stays_sound l a n w :
  sound (next_ref (state_of (run (steps l) (mkState [] a n w))))
    (subscriptions (state_of (run (steps l) (mkState [] a n w)))).
Proof.
  assert (G : forall st,
             sound (next_ref st) (subscriptions st) ->
             sound (next_ref (state_of (steps l st)))
               (subscriptions (state_of (steps l st)))).
  { induction l as [|x l IH]; intros st S; [exact S|].
    specialize (IH _ (step_sound x st S)).
    unfold state_of in *. simpl. unfold bind, try_catch, ret.
    destruct (step x st) as [[[[]|e] st1] t1]; simpl in *;
      destruct (steps l st1) as [[r st2] t2]; exact IH. }
  apply G. apply empty_sound.
Qed.

(** ** Further properties of SUBSCRIBE, of the payloads and of dispatch *)

Lemma reads_multi s a sch event w res w' t :
  item s = None ->
  reads s a sch event w = (Ok res, w', t) ->
  prop res "event" = JStr event /\
  exists w1,
    readByQuery (collection s) sch a (query_of s) w
      = (inr (prop res "payload"), w1).
Proof.
  intros I. unfold reads, getPayload, getMultiPayload.
  unfold_monad. rewrite I. simpl.
  destruct (readByQuery (collection s) sch a (query_of s) w)
    as [[x|p] w1]; simpl; [discriminate|].
  destruct (JsObject.has "meta" (query_of s)); simpl.
  2:{ intros [= <- <- <-]. split; [reflexivity|]. now exists w1. }
  destruct (getMetaForQuery (collection s) sch a (query_of s) w1)
    as [[x|m] w2]; intros [= <- <- <-].
  split; [reflexivity|]. now exists w1.
Qed.

Lemma filter_none {A} (f : A -> bool) l :
  Forall (fun x => f x = false) l -> filter f l = [].
Proof.
  induction 1 as [|x l H _ IH]; simpl; [reflexivity|]. now rewrite H.
Qed.

(** X9. A SUBSCRIBE from a client that is no admin, for a collection the
    schema does not have: the request is answered with the error
    INVALID_COLLECTION under the uid of the request; nothing is read, nothing
    is removed or registered, not even a subscription held under that uid. *)
Theorem invalid_collection_is_rejected c coll it q u st sch w1 :
  getSchema (world st) = (inr sch, w1) ->
  is_admin (accountability st c) = false ->
  collections sch coll = false ->
  run (onMessage c (SUBSCRIBE coll it q u)) st =
  (Ok tt, with_world w1 st,
   [CallGetSchema;
    HandleException c
      (WebSocketException "subscribe" "INVALID_COLLECTION"
         "The provided collection does not exists or is not accessible." u)
      "subscribe"]).
Proof.
  intros H1 A C. apply (onMessage_invalid_collection c coll it q u st sch w1 H1).
  unfold valid_collection. now rewrite A, C.
Qed.

(** X10. A SUBSCRIBE that fails before its read, because the schema cannot
    be fetched or because the query does not sanitize: the error is reported
    to the client, nothing is read, and the registry is exactly what it was;
    unlike after a failed read, a subscription held under the uid of the
    request is still there. *)
Theorem early_failure_keeps_the_registry c coll it q u st :
  (exists x w1, getSchema (world st) = (inl x, w1)) \/
  (exists sch w1 raw x,
     getSchema (world st) = (inr sch, w1) /\
     valid_collection (accountability st c) sch coll = true /\
     q = Some raw /\
     sanitizeQuery raw (accountability st c) = inl x) ->
  let r := run (onMessage c (SUBSCRIBE coll it q u)) st in
  result_of r = Ok tt /\
  subscriptions (state_of r) = subscriptions st /\
  accountability (state_of r) = accountability st /\
  exists x,
    trace_of r = [CallGetSchema; HandleException c (Thrown x) "subscribe"].
Proof.
  intros [(x & w1 & H1)|(sch & w1 & raw & x & H1 & V & -> & Q)] r;
    subst r; unfold run.
  - rewrite (onMessage_schema_fails c coll it q u st x w1 H1).
    repeat split. now exists x.
  - rewrite (onMessage_sanitize_fails c coll it raw u st sch w1 x H1 V Q).
    repeat split. now exists x.
Qed.

(** X11. A SUBSCRIBE to a collection, without item, whose collection is
    valid, whose read succeeds and under whose collection the registry takes
    a set: the subscription is registered and the client is sent exactly one
    frame, under the uid of the request, whose event is "init" and whose
    payload is what [readByQuery] returned. *)
Theorem collection_subscribe_pushes_init
    c coll q u st sch w1 q' data w2 t :
  getSchema (world st) = (inr sch, w1) ->
  valid_collection (accountability st c) sch coll = true ->
  sanitized q (accountability st c) q' ->
  refs_below (next_ref st) (subscriptions st) ->
  reads (candidate st c coll q' None u) (accountability st c) sch "init" w1
    = (Ok data, w2, t) ->
  accepts (subscriptions st) coll = true ->
  let s := candidate st c coll q' None u in
  let r := run (onMessage c (SUBSCRIBE coll None q u)) st in
  trace_of r = CallGetSchema :: t ++ [Send c (fmtMessage "subscription" data u)] /\
  pushes (trace_of r) = [(c, fmtMessage "subscription" data u)] /\
  responses (trace_of r) = [c] /\
  prop data "event" = JStr "init" /\
  (exists w,
     readByQuery coll sch (accountability st c) (query_of s) w1
       = (inr (prop data "payload"), w)) /\
  In s (Subscriptions.subscribersOf (subscriptions (state_of r)) coll).
Proof.
  intros H1 V Q B R Acc s r. subst r. unfold run.
  rewrite (onMessage_subscribe c coll None q u st sch w1 q' (Ok data) w2 t
             H1 V Q R).
  rewrite Acc. unfold state_of, trace_of. cbn [fst snd subscriptions].
  destruct (reads_silent _ _ _ _ _ _ _ _ R) as [S1 S2].
  split; [reflexivity|]. split; [|split; [|split; [|split]]].
  - change (CallGetSchema :: t ++ [Send c (fmtMessage "subscription" data u)])
      with ([CallGetSchema] ++ t ++ [Send c (fmtMessage "subscription" data u)]).
    now rewrite !pushes_app, S2.
  - change (CallGetSchema :: t ++ [Send c (fmtMessage "subscription" data u)])
      with ([CallGetSchema] ++ t ++ [Send c (fmtMessage "subscription" data u)]).
    now rewrite !responses_app, S1.
  - apply (reads_multi s _ _ _ _ _ _ _ eq_refl R).
  - apply (reads_multi s _ _ _ _ _ _ _ eq_refl R).
  - rewrite subscribersOf_subscribe. fold s.
    change (collection s) with coll. rewrite String.eqb_refl.
    rewrite set_add_fresh.
    + apply in_or_app. right. now left.
    + intros y I. apply unsubscribe_subset in I. apply B in I. exact I.
Qed.

(** X12. A payload that is read without error holds the event it was asked
    for, the payload the read returned and, exactly when the query of the
    subscription has a [meta] key, the meta; the read is the first call, the
    call for the meta comes after it, under the same accountability and
    schema; and nothing but the world is changed. *)
Theorem payload_has_event_payload_and_meta s a sch event st res st' t :
  run (getPayload s a sch event) st = (Ok res, st', t) ->
  JsObject.keys res =
    (if JsObject.has "meta" (query_of s)
     then ["event"; "payload"; "meta"] else ["event"; "payload"]) /\
  prop res "event" = JStr event /\
  t = read_call s a sch ::
      (if JsObject.has "meta" (query_of s) then [meta_call s a sch] else []) /\
  st' = with_world (world st') st.
Proof.
  unfold run, getPayload, getSinglePayload, getMultiPayload, read_call,
    meta_call.
  unfold_monad.
  destruct (item s) as [id|]; simpl.
  - destruct (readOne (collection s) sch a id (query_of s) (world st))
      as [[x|p] w1]; simpl; [discriminate|].
    destruct (JsObject.has "meta" (query_of s)); simpl.
    2:{ intros [= <- <- <-]. repeat split. }
    destruct (getMetaForQuery (collection s) sch a (query_of s) w1)
      as [[x|m] w2]; intros [= <- <- <-]. repeat split.
  - destruct (readByQuery (collection s) sch a (query_of s) (world st))
      as [[x|p] w1]; simpl; [discriminate|].
    destruct (JsObject.has "meta" (query_of s)); simpl.
    2:{ intros [= <- <- <-]. repeat split. }
    destruct (getMetaForQuery (collection s) sch a (query_of s) w1)
      as [[x|m] w2]; intros [= <- <- <-]. repeat split.
Qed.

Lemma deliver_action s ev1 ev2 :
  event_action ev1 = event_action ev2 -> deliver s ev1 = deliver s ev2.
Proof. intros H. unfold deliver. now rewrite H. Qed.

Lemma dispatch_loop_action l ev1 ev2 :
  event_action ev1 = event_action ev2 ->
  dispatch_loop l ev1 = dispatch_loop l ev2.
Proof.
  intros H. induction l as [|s l IH]; simpl; [reflexivity|].
  unfold attempt. now rewrite IH, (deliver_action s ev1 ev2 H).
Qed.

(** X13. A dispatch looks at the action and at the collection of its event
    and at nothing else: the keys and the payload of the event play no part,
    so that a subscription to one item is served on every event of its
    collection, whichever item the event is about. *)
Theorem dispatch_ignores_keys_and_payload ev1 ev2 st :
  event_action ev1 = event_action ev2 ->
  event_collection ev1 = event_collection ev2 ->
  run (dispatch ev1) st = run (dispatch ev2) st.
Proof.
  intros A C. unfold run.
  destruct (accepts (subscriptions st) (event_collection ev1)) eqn:Acc.
  - rewrite (dispatch_unfold ev1 st Acc). rewrite C in Acc.
    rewrite (dispatch_unfold ev2 st Acc), C.
    now rewrite (dispatch_loop_action _ ev1 ev2 A).
  - destruct (dispatch_inherited ev1 st Acc) as [-> _]. rewrite C in Acc.
    now destruct (dispatch_inherited ev2 st Acc) as [-> _].
Qed.

Lemma attempt_accountability s ev st c :
  c <> client s ->
  accountability (state_of (attempt s ev st)) c = accountability st c.
Proof.
  intros N. apply Nat.eqb_neq in N.
  destruct (refreshAccountability (accountability st (client s)) (world st))
    as [[x|fresh] w1] eqn:H1.
  { now rewrite (attempt_refresh_fails s ev st x w1 H1). }
  destruct (getSchema w1) as [[x|sch] w2] eqn:H2.
  { rewrite (attempt_schema_fails s ev st fresh w1 x w2 H1 H2).
    unfold state_of. simpl. now rewrite N. }
  destruct (reads s fresh sch (action_name (event_action ev)) w2)
    as [[r w3] t] eqn:H3.
  rewrite (attempt_reads s ev st fresh w1 sch w2 r w3 t H1 H2 H3).
  unfold state_of. simpl. now rewrite N.
Qed.

(** X14. A dispatch writes the accountability of the clients it serves and
    of nobody else: a client without subscription under the collection of
    the event keeps its accountability; the registry and the allocator are
    left alone whoever is served. *)
Theorem dispatch_touches_only_its_clients ev st c :
  (forall s,
     In s (Subscriptions.subscribersOf (subscriptions st) (event_collection ev))
     -> client s <> c) ->
  let st' := state_of (run (dispatch ev) st) in
  accountability st' c = accountability st c /\
  subscriptions st' = subscriptions st /\
  next_ref st' = next_ref st.
Proof.
  intros H st'. subst st'. unfold run.
  destruct (accepts (subscriptions st) (event_collection ev)) eqn:Acc.
  2:{ destruct (dispatch_inherited ev st Acc) as [-> _]. repeat split. }
  rewrite (dispatch_unfold ev st Acc). clear Acc.
  revert H.
  generalize (Subscriptions.subscribersOf (subscriptions st)
                (event_collection ev)).
  intros l. revert st. induction l as [|s l IH]; intros st H.
  - repeat split.
  - simpl. unfold bind.
    destruct (attempt_total s ev st) as (st1 & t1 & E1 & R1 & N1 & _).
    pose proof (attempt_accountability s ev st c) as A1.
    rewrite E1 in *. unfold state_of in A1. simpl in A1.
    destruct (IH st1) as (A2 & R2 & N2).
    { intros y I. apply H. now right. }
    destruct (dispatch_loop l ev st1) as [[r st2] t2].
    unfold state_of in *. simpl in *.
    rewrite A2, R2, N2, A1; [auto|].
    intros ->. apply (H s); [now left|reflexivity].
Qed.

(** X15. A message never refreshes the accountability of anybody: whatever
    it is, it ends normally, the accountability of every client is what it
    was, no call of [refreshAccountability] is made, and what is read is read
    under the accountability the sender had when the message came. *)
Theorem message_never_refreshes c m st :
  let r := run (onMessage c m) st in
  result_of r = Ok tt /\
  accountability (state_of r) = accountability st /\
  Forall (fun e => is_refresh e = false /\ reads_as (accountability st c) e)
    (trace_of r).
Proof.
  intros r. subst r. unfold run.
  destruct (onMessage_outcome c m st) as (st' & t & E & A & _ & F & _).
  rewrite E. now repeat split.
Qed.

Lemma attempt_calls s ev st :
  List.length (filter is_refresh (trace_of (attempt s ev st))) = 1 /\
  List.length (filter is_schema (trace_of (attempt s ev st))) <= 1.
Proof.
  destruct (refreshAccountability (accountability st (client s)) (world st))
    as [[x|fresh] w1] eqn:H1.
  { rewrite (attempt_refresh_fails s ev st x w1 H1). simpl. lia. }
  destruct (getSchema w1) as [[x|sch] w2] eqn:H2.
  { rewrite (attempt_schema_fails s ev st fresh w1 x w2 H1 H2). simpl. lia. }
  destruct (reads s fresh sch (action_name (event_action ev)) w2)
    as [[r w3] t] eqn:H3.
  rewrite (attempt_reads s ev st fresh w1 sch w2 r w3 t H1 H2 H3).
  unfold trace_of. simpl. rewrite !filter_app.
  apply reads_quiet in H3.
  rewrite (filter_none is_refresh t), (filter_none is_schema t).
  - destruct r; simpl; lia.
  - eapply Forall_impl; [|exact H3]. simpl. tauto.
  - eapply Forall_impl; [|exact H3]. simpl. tauto.
Qed.

(** X16. In a dispatch the accountability is refreshed once for every
    subscription under the collection, not once for every client, and the
    schema is fetched at most once for every subscription. *)
Theorem dispatch_refreshes_once_per_subscription ev st :
  let t := trace_of (run (dispatch ev) st) in
  let n := List.length (Subscriptions.subscribersOf (subscriptions st)
                     (event_collection ev)) in
  List.length (filter is_refresh t) = n /\ List.length (filter is_schema t) <= n.
Proof.
  intros t n. subst t n. unfold run.
  destruct (accepts (subscriptions st) (event_collection ev)) eqn:Acc.
  2:{ destruct (dispatch_inherited ev st Acc) as [-> ->]. simpl. lia. }
  rewrite (dispatch_unfold ev st Acc). clear Acc.
  generalize (Subscriptions.subscribersOf (subscriptions st)
                (event_collection ev)).
  intros l. revert st. induction l as [|s l IH]; intros st.
  - simpl. lia.
  - simpl. unfold bind.
    destruct (attempt_total s ev st) as (st1 & t1 & E1 & _).
    pose proof (attempt_calls s ev st) as [C1 C2].
    rewrite E1 in *. unfold trace_of in C1, C2. simpl in C1, C2.
    specialize (IH st1).
    destruct (dispatch_loop l ev st1) as [[r st2] t2].
    unfold trace_of in *. simpl in *.
    rewrite !filter_app, !List.length_app. lia.
Qed.

(** ** Further properties of the action hooks *)

Lemma emitAction_run hooks event args st :
  emitAction hooks event args st =
  (Ok tt, st,
   map (fun h => Publish "websocket.event" (hook_message h args))
     (filter (fun h => String.eqb (hook_event h) event) hooks)).
Proof.
  revert st. induction hooks as [|h hooks IH]; intros st; simpl;
    [reflexivity|].
  unfold bind, fire, effect, ret.
  destruct (String.eqb (hook_event h) event); now rewrite IH.
Qed.

Lemma length_append (a b : string) :
  String.length (a ++ b) = String.length a + String.length b.
Proof. induction a as [|c a IH]; simpl; [reflexivity|now rewrite IH]. Qed.

Lemma append_cancel_r (s : string) a : forall b,
  (a ++ s)%string = (b ++ s)%string -> a = b.
Proof.
  induction a as [|c a IH]; intros [|c' b] H; simpl in H.
  - reflexivity.
  - apply (f_equal String.length) in H. simpl in H.
    rewrite length_append in H. lia.
  - apply (f_equal String.length) in H. simpl in H.
    rewrite length_append in H. lia.
  - injection H as -> H. f_equal. now apply IH.
Qed.

Lemma action_name_no_dot k : no_dot (action_name k) = true.
Proof. now destruct k. Qed.

(** The name of an event tells its module and its kind. *)
Lemma event_name_inj m1 k1 m2 k2 :
  (m1 ++ "." ++ action_name k1)%string = (m2 ++ "." ++ action_name k2)%string ->
  m1 = m2 /\ k1 = k2.
Proof.
  intros H.
  assert (K : Some (action_name k1) = Some (action_name k2)).
  { rewrite <- (pop_split_suffix (action_name k1) m1 EmptyString
                  (action_name_no_dot k1)).
    rewrite <- (pop_split_suffix (action_name k2) m2 EmptyString
                  (action_name_no_dot k2)).
    simpl in H. now rewrite H. }
  assert (E : k1 = k2) by (destruct k1, k2; simpl in K; congruence).
  subst k2. split; [|reflexivity].
  now apply append_cancel_r in H.
Qed.

Lemma hooks_of_other_modules ms module kind :
  ~ In module ms ->
  filter (fun h => String.eqb (hook_event h)
                     (module ++ "." ++ action_name kind))
    (bindModules ms) = [].
Proof.
  intros N. induction ms as [|m ms IH]; [reflexivity|].
  assert (D : m <> module) by (intros ->; apply N; now left).
  unfold bindModules in *. cbn [flat_map app filter hook_event].
  rewrite IH by (intros I; apply N; now right).
  assert (F : forall k,
             String.eqb (m ++ "." ++ action_name k)
               (module ++ "." ++ action_name kind) = false).
  { intros k. apply String.eqb_neq. intros E.
    now apply event_name_inj in E as [E _]. }
  change (m ++ ".create")%string with (m ++ "." ++ action_name create)%string.
  change (m ++ ".update")%string with (m ++ "." ++ action_name update)%string.
  change (m ++ ".delete")%string with (m ++ "." ++ action_name delete)%string.
  now rewrite !F.
Qed.

(** X17. With every module bound once, a mutation of a bound module is
    published exactly once: among the hooks [bindModules] registers one and
    only one listens to [module + '.' + kind], and emitting that event
    publishes the message of this hook on [websocket.event] and nothing
    else. *)
Theorem mutation_is_published_once ms module kind args st :
  NoDup ms -> In module ms ->
  exists h,
    In h (bindModules ms) /\
    hook_event h = (module ++ "." ++ action_name kind)%string /\
    run (emitAction (bindModules ms) (module ++ "." ++ action_name kind) args)
      st
      = (Ok tt, st, [Publish "websocket.event" (hook_message h args)]).
Proof.
  intros D I. unfold run. rewrite emitAction_run.
  induction ms as [|m ms IH]; [contradiction|].
  inversion D as [|? ? N D']; subst.
  unfold bindModules in *. cbn [flat_map app filter hook_event map].
  change (m ++ ".create")%string with (m ++ "." ++ action_name create)%string.
  change (m ++ ".update")%string with (m ++ "." ++ action_name update)%string.
  change (m ++ ".delete")%string with (m ++ "." ++ action_name delete)%string.
  destruct I as [->|I].
  - pose proof (hooks_of_other_modules ms module kind N) as R.
    unfold bindModules in R.
    destruct kind;
      repeat match goal with
      | |- context [String.eqb ?a ?a] => rewrite (String.eqb_refl a)
      | |- context [String.eqb (module ++ "." ++ action_name ?k1)
                      (module ++ "." ++ action_name ?k2)] =>
          replace (String.eqb (module ++ "." ++ action_name k1)
                     (module ++ "." ++ action_name k2)) with false
            by (symmetry; apply String.eqb_neq; intros E;
                apply event_name_inj in E as [_ E]; discriminate E)
      end;
      cbn [map]; rewrite R; eexists;
      (split; [|split; [|reflexivity]]); [|reflexivity| |reflexivity| |reflexivity];
      simpl; auto.
  - assert (M : m <> module) by (intros ->; contradiction).
    assert (F : forall k,
               String.eqb (m ++ "." ++ action_name k)
                 (module ++ "." ++ action_name kind) = false).
    { intros k. apply String.eqb_neq. intros E.
      now apply event_name_inj in E as [E _]. }
    rewrite !F. destruct (IH D' I) as (h & Ih & Eh & R).
    exists h. split; [|split; [exact Eh|exact R]].
    simpl. auto.
Qed.

(** ** How the operations compose *)

(** X19. A payload fails exactly when its read fails or, the read having
    succeeded and the query asking for the meta, the meta fails: a failed
    read ends the payload with the exception of the read, after that one
    call; a failed meta ends it with the exception of the meta, after the two
    calls, and what was read is dropped with it; and a payload that throws
    has failed in one of these two ways. *)
Theorem payload_fails_with_its_read_or_its_meta s a sch event st :
  let read :=
    match item s with
    | Some id => readOne (collection s) sch a id (query_of s) (world st)
    | None => readByQuery (collection s) sch a (query_of s) (world st)
    end in
  let meta := getMetaForQuery (collection s) sch a (query_of s) in
  (forall x w,
     read = (inl x, w) ->
     run (getPayload s a sch event) st
       = (Throw (Thrown x), with_world w st, [read_call s a sch])) /\
  (forall p w1 x w2,
     read = (inr p, w1) ->
     JsObject.has "meta" (query_of s) = true ->
     meta w1 = (inl x, w2) ->
     run (getPayload s a sch event) st
       = (Throw (Thrown x), with_world w2 st,
          [read_call s a sch; meta_call s a sch])) /\
  (forall e st' t,
     run (getPayload s a sch event) st = (Throw e, st', t) ->
     (exists x w, read = (inl x, w)) \/
     (exists p w1 x w2,
        read = (inr p, w1) /\
        JsObject.has "meta" (query_of s) = true /\
        meta w1 = (inl x, w2))).
Proof.
  unfold run, getPayload, getSinglePayload, getMultiPayload, read_call,
    meta_call.
  unfold_monad.
  destruct (item s) as [id|]; cbv zeta;
    match goal with
    | |- context [readOne ?c ?h ?b ?i ?q ?w] =>
        destruct (readOne c h b i q w) as [[x|p] w1]
    | |- context [readByQuery ?c ?h ?b ?q ?w] =>
        destruct (readByQuery c h b q w) as [[x|p] w1]
    end; simpl.
  1,3: split; [intros ? ? [= <- <-]; reflexivity|];
       split; [intros ? ? ? ? [=]|];
       intros ? ? ? _; left; now exists x, w1.
  all: split; [intros ? ? [=]|];
       split;
       [intros ? ? ? ? [= <- <-] M G; rewrite M; simpl; now rewrite G|];
       destruct (JsObject.has "meta" (query_of s)); simpl; [|discriminate];
       destruct (getMetaForQuery (collection s) sch a (query_of s) w1)
         as [[x|m] w2] eqn:G; intros e st' t [=];
       right; now exists p, w1, x, w2.
Qed.

End HandlerFacts.

(** ** The handler at work *)

Section DemoFacts.
Import Demo Invariants SubscriptionsFacts.

(** C1. Alice and Bob both subscribed under the uid "a"; Bob subscribes again
    under "a".  The lookup by uid stops at the subscription of Alice, so that
    nothing of Bob is removed: Bob now holds two subscriptions with the uid
    "a". *)
Theorem resubscribe_behind_foreign_uid_duplicates :
  holders st2 "articles" = [(alice, Some "a"); (bob, Some "a")] /\
  Subscriptions.getSubscription "a" (subscriptions st2)
    = Some (mkSubscription 0 alice "articles" None None (Some "a")) /\
  holders st3 "articles"
    = [(alice, Some "a"); (bob, Some "a"); (bob, Some "a")] /\
  map ref (Subscriptions.subscribersOf (subscriptions st3) "articles")
    = [0; 1; 2].
Proof. repeat split; reflexivity. Qed.

(** C6. In the same registry Bob sends UNSUBSCRIBE for the uid "a": the
    subscription he holds under that uid stays where it is. *)
Theorem unsubscribe_behind_foreign_uid_removes_nothing :
  In (bob, Some "a") (holders st2 "articles") /\
  Subscriptions.unsubscribe bob (Some "a") (subscriptions st2)
    = subscriptions st2 /\
  holders (state_of (run (onMessage bob (UNSUBSCRIBE (Some "a"))) st2))
    "articles" = [(alice, Some "a"); (bob, Some "a")].
Proof. repeat split; try reflexivity. right. now left. Qed.

(** C10. Again in that registry, Bob subscribes again under "a" while the
    reads are refused: the error is reported, and the subscription Bob held
    under "a" is still registered. *)
Theorem failed_resubscribe_behind_foreign_uid_keeps_the_old :
  trace_of (run (onMessage bob subscribe_a) st2_refused)
    = [CallGetSchema;
       CallReadByQuery "articles" schema0 None [];
       HandleException bob (Thrown "FORBIDDEN") "subscribe"] /\
  Subscriptions.subscribersOf
    (subscriptions (state_of (run (onMessage bob subscribe_a) st2_refused)))
    "articles"
    = [mkSubscription 0 alice "articles" None None (Some "a");
       mkSubscription 1 bob "articles" None None (Some "a")].
Proof. split; reflexivity. Qed.

(** C2. Alice holds a subscription to the articles, and an update arrives for
    the collection "constructor", under which nobody is registered.  The read
    of the registry under that name ends at the constructor every object
    inherits, which [??] keeps and [for...of] cannot iterate: the dispatch
    throws a [TypeError] where, with no subscription under the collection, it
    should have done nothing. *)
Theorem dispatch_for_inherited_name_throws :
  let ev := WebSocketUpdateEvent "constructor" None [KNum 1] in
  holders st1 "articles" = [(alice, Some "a")] /\
  JsObject.keys (subscriptions st1) = ["articles"] /\
  Subscriptions.subscribersOf (subscriptions st1) (event_collection ev) = [] /\
  Subscriptions.read (subscriptions st1) (event_collection ev)
    = Subscriptions.Inherited /\
  run (dispatch ev) st1
    = (Throw (TypeError "subscriptions is not iterable"), st1, []) /\
  result_of (run (dispatch ev) st1) <> Ok tt.
Proof.
  intros ev. do 5 (split; [reflexivity|]).
  intros H. vm_compute in H. discriminate H.
Qed.


(** C5, as the spec has it, fails: Bob subscribes to article 42, the
    collection is valid, the article is read and the subscription is
    registered, and no frame at all is sent to Bob. *)
Lemma single_item_subscribe_sends_no_init :
  let x := run (onMessage bob watch42) st0 in
  valid_collection (accountability st0 bob) schema0 "articles" = true /\
  reads (candidate st0 bob "articles" None (Some (KNum 42)) (Some "x"))
    None schema0 "init" db0
    = (Ok [("event", JStr "init"); ("payload", article "a")], db0,
       [CallReadOne "articles" schema0 None (KNum 42) []]) /\
  holders (state_of x) "articles" = [(bob, Some "x")] /\
  ~ (exists f, In (Send bob f) (trace_of x)).
Proof.
  repeat split; try reflexivity.
  intros (f & [H|[H|[]]]); discriminate H.
Qed.


(** The turn of Bob in the same dispatch. *)
Lemma dispatch_refresh_witness :
  Subscriptions.subscribersOf (subscriptions st_deleted)
    (event_collection deleted42) = [alice_watch] ++ bob_list :: [] /\
  let before := run (dispatch_loop [alice_watch] deleted42) st_deleted in
  let old := accountability (state_of before) (client bob_list) in
  exists turn after,
    trace_of (run (dispatch deleted42) st_deleted)
      = trace_of before ++ turn ++ after /\
    match refreshAccountability old (world (state_of before)) with
    | (inl x, _) =>
        turn = [CallRefresh old;
                HandleException (client bob_list) (Thrown x) "subscribe"]
    | (inr fresh, w1) =>
        match getSchema w1 with
        | (inl x, _) =>
            turn = [CallRefresh old; CallGetSchema;
                    HandleException (client bob_list) (Thrown x) "subscribe"]
        | (inr sch, w2) =>
            exists r w3 t,
              reads bob_list fresh sch
                (action_name (event_action deleted42)) w2 = (r, w3, t) /\
              Forall (read_under fresh sch) t /\
              turn = CallRefresh old :: CallGetSchema
                       :: t ++ [outcome bob_list r]
        end
    end.
Proof.
  split; [reflexivity|].
  exact (dispatch_reads_under_refreshed_context
           deleted42 st_deleted [alice_watch] bob_list [] eq_refl).
Defined.

(** Bob subscribes under a new uid while the reads are refused. *)
Lemma subscribe_read_failure_witness :
  let c := bob in
  let st := st2_refused in
  let r := Throw (Thrown "FORBIDDEN") in
  let t := [CallReadByQuery "articles" schema0 None []] in
  getSchema (world st) = (inr schema0, world st) /\
  valid_collection (accountability st c) schema0 "articles" = true /\
  sanitized None (accountability st c) None /\
  refs_below (next_ref st) (subscriptions st) /\
  reads (candidate st c "articles" None None (Some "b"))
    (accountability st c) schema0 "init" (world st) = (r, world st, t) /\
  let s := candidate st c "articles" None None (Some "b") in
  let x := run (onMessage c (SUBSCRIBE "articles" None None (Some "b"))) st in
  result_of x = Ok tt /\
  ((exists k, In s (Subscriptions.subscribersOf (subscriptions (state_of x)) k))
   <-> (exists data, r = Ok data) /\
       accepts (subscriptions st) "articles" = true) /\
  (forall e, r = Throw e ->
     subscriptions (state_of x)
       = Subscriptions.unsubscribe c (Some "b") (subscriptions st) /\
     trace_of x = CallGetSchema :: t ++ [HandleException c e "subscribe"] /\
     responses (trace_of x) = [c] /\
     pushes (trace_of x) = []).
Proof.
  intros c st r t.
  assert (B : refs_below (next_ref st) (subscriptions st))
    by (apply refs_ok_below; reflexivity).
  split; [reflexivity|]. split; [reflexivity|]. split; [reflexivity|].
  split; [exact B|]. split; [reflexivity|].
  exact (subscribe_registers_only_after_its_read
           c "articles" None None (Some "b") st schema0 (world st) None
           r (world st) t eq_refl eq_refl eq_refl B eq_refl).
Defined.


(** Bob watches article 42; the article is renamed and the update arrives. *)
Lemma single_item_subscribe_witness :
  let c := bob in
  let st := st0 in
  let s := candidate st c "articles" None (Some (KNum 42)) (Some "x") in
  let x := run (onMessage c watch42) st in
  let res := [("event", JStr "update"); ("payload", article "b")] in
  let t := [CallReadOne "articles" schema0 None (KNum 42) []] in
  let before := run (dispatch_loop [] updated42) (with_world db_renamed (state_of x)) in
  let y := run (dispatch updated42) (with_world db_renamed (state_of x)) in
  (trace_of x = CallGetSchema :: t /\
   responses (trace_of x) = [] /\
   pushes (trace_of x) = [] /\
   Subscriptions.subscribersOf (subscriptions (state_of x)) "articles"
     = [] ++ [s]) /\
  (trace_of y =
     trace_of before ++
     CallRefresh None :: CallGetSchema :: t ++
       [Send c (fmtMessage "subscription" res (Some "x"))] /\
   pushes_to c (trace_of y)
     = [(c, fmtMessage "subscription" res (Some "x"))] /\
   prop res "event" = JStr "update" /\
   exists w,
     readOne "articles" schema0 None (KNum 42) (query_of s) db_renamed
       = (inr (prop res "payload"), w)).
Proof.
  intros c st s x res t before y.
  assert (B : refs_below (next_ref st) (subscriptions st))
    by (apply refs_ok_below; reflexivity).
  exact (single_item_subscribe_is_silent_then_pushed
           c "articles" (KNum 42) None (Some "x") st schema0 db0 None
           [("event", JStr "init"); ("payload", article "a")] db0 t
           updated42 db_renamed None db_renamed schema0 db_renamed
           res db_renamed t
           eq_refl eq_refl eq_refl B eq_refl eq_refl
           (fun s' (H : In s' []) => match H with end)
           eq_refl eq_refl eq_refl eq_refl).
Defined.

(** The hook on [items.create] fires for a new article. *)
Lemma hooks_publish_witness :
  let h :=
    bindAction "items.create" (Some (fun args => [("key", prop args "key")])) in
  let args :=
    [("payload", JObj [("name", JStr "a")]); ("key", JNum 42);
     ("collection", JStr "articles")] in
  In h (bindModules modules) /\
  exists module kind,
    In module modules /\
    hook_event h = (module ++ "." ++ action_name kind)%string /\
    run (fire h args) st0
      = (Ok tt, st0, [Publish "websocket.event" (hook_message h args)]) /\
    prop (hook_message h args) "action" = JStr (action_name kind) /\
    prop (hook_message h args) "collection" = prop args "collection" /\
    prop (hook_message h args) "payload"
      = nullish (prop args "payload") (JObj []) /\
    match kind with
    | create =>
        JsObject.get (hook_message h args) "key" = Some (prop args "key") /\
        JsObject.has "keys" (hook_message h args) = false
    | update | delete =>
        JsObject.get (hook_message h args) "keys" = Some (prop args "keys") /\
        JsObject.has "key" (hook_message h args) = false
    end.
Proof.
  intros h args.
  assert (I : In h (bindModules modules)) by (left; reflexivity).
  split; [exact I|].
  exact (hooks_publish_the_mutation modules h args st0 I).
Defined.

(** *** More runs *)

Lemma st1_sound : sound (next_ref st1) (subscriptions st1).
Proof. exact (onMessage_sound alice subscribe_a st0 (empty_sound 0)). Qed.

Lemma st2_sound : sound (next_ref st2) (subscriptions st2).
Proof. exact (onMessage_sound bob subscribe_a st1 st1_sound). Qed.

Lemma modules_distinct : NoDup modules.
Proof.
  unfold modules.
  repeat (constructor;
          [intros H; simpl in H;
           repeat (destruct H as [H|H]; [discriminate H|]); exact H|]).
  constructor.
Qed.

(** The lookup of "a" when Alice and Bob both hold it. *)
Lemma lookup_by_uid_witness :
  NoDup (JsObject.keys (subscriptions st2)) /\
  match Subscriptions.getSubscription "a" (subscriptions st2) with
  | Some s => registered (subscriptions st2) s /\ uid s = Some "a"
  | None => forall s, registered (subscriptions st2) s -> uid s <> Some "a"
  end.
Proof.
  split; [exact (proj2 st2_sound)|].
  exact (lookup_by_uid_is_sound_and_complete "a" (subscriptions st2)
           (proj2 st2_sound)).
Defined.

(** Bob's subscription to the authors is registered beside the articles. *)
Lemma subscribe_adds_witness :
  let s := bob_authors in
  let subs := subscriptions st2 in
  refs_below (ref s) subs /\
  match Subscriptions.subscribe s subs with
  | None =>
      Subscriptions.inherited (collection s) = true /\
      ~ In (collection s) (JsObject.keys subs)
  | Some subs' =>
      (Subscriptions.inherited (collection s) = false \/
       In (collection s) (JsObject.keys subs)) /\
      (forall k,
         Subscriptions.subscribersOf subs' k =
         if String.eqb (collection s) k
         then Subscriptions.subscribersOf subs k ++ [s]
         else Subscriptions.subscribersOf subs k) /\
      In (collection s) (JsObject.keys subs') /\
      (forall k, In k (JsObject.keys subs) -> In k (JsObject.keys subs')) /\
      (exists subs'',
         Subscriptions.subscribe s subs' = Some subs'' /\
         forall k,
           Subscriptions.subscribersOf subs'' k =
           Subscriptions.subscribersOf subs' k) /\
      (forall u, uid s = Some u ->
         exists s',
           Subscriptions.getSubscription u subs' = Some s' /\
           uid s' = Some u)
  end.
Proof.
  intros s subs.
  assert (B : refs_below (ref s) subs) by (apply refs_ok_below; reflexivity).
  split; [exact B|].
  exact (subscribe_adds_to_its_collection s subs B).
Defined.

(** Bob unsubscribes from "a", which Alice alone holds. *)
Lemma unsubscribe_unknown_uid_witness :
  NoDup (JsObject.keys (subscriptions st1)) /\
  (forall s, registered (subscriptions st1) s -> client s = bob ->
             uid s <> Some "a") /\
  run (onMessage bob (UNSUBSCRIBE (Some "a"))) st1 = (Ok tt, st1, []).
Proof.
  assert (H : forall s, registered (subscriptions st1) s -> client s = bob ->
                        uid s <> Some "a").
  { intros s R O. apply registered_in_values in R.
    destruct R as [<-|[]]. discriminate O. }
  split; [exact (proj2 st1_sound)|]. split; [exact H|].
  exact (unsubscribe_unknown_uid_changes_nothing bob "a" st1
           (proj2 st1_sound) H).
Defined.

(** Alice unsubscribes from "a", which she and Bob hold. *)
Lemma unsubscribe_own_uid_witness :
  let r := run (onMessage alice (UNSUBSCRIBE (Some "a"))) st2 in
  sound (next_ref st2) (subscriptions st2) /\
  Subscriptions.getSubscription "a" (subscriptions st2) = Some alice_a /\
  client alice_a = alice /\
  (result_of r = Ok tt /\ trace_of r = [] /\
   registered (subscriptions st2) alice_a /\ uid alice_a = Some "a" /\
   forall k y,
     In y (Subscriptions.subscribersOf (subscriptions (state_of r)) k) <->
     In y (Subscriptions.subscribersOf (subscriptions st2) k) /\ y <> alice_a).
Proof.
  intros r. split; [exact st2_sound|]. split; [reflexivity|].
  split; [reflexivity|].
  exact (unsubscribe_own_uid_removes_that_one alice "a" st2 alice_a
           st2_sound eq_refl eq_refl).
Defined.

(** The connection of Alice closes. *)
Lemma close_witness :
  let c := alice in
  let st := st2 in
  let r := run (onClose c) st in
  sets_distinct (subscriptions st) /\
  (run (onMessage c (UNSUBSCRIBE None)) st = r /\
   result_of r = Ok tt /\ trace_of r = [] /\
   JsObject.keys (subscriptions (state_of r))
     = JsObject.keys (subscriptions st) /\
   (forall k,
      Subscriptions.subscribersOf (subscriptions (state_of r)) k =
      filter (kept c) (Subscriptions.subscribersOf (subscriptions st) k)) /\
   (forall k,
      Subscriptions.subscribersOf
        (subscriptions (state_of (run (onClose c) (state_of r)))) k =
      Subscriptions.subscribersOf (subscriptions (state_of r)) k)).
Proof.
  intros c st r.
  assert (W : sets_distinct (subscriptions st))
    by (apply sets_ok_distinct; reflexivity).
  split; [exact W|].
  exact (close_removes_all_of_the_client c st W).
Defined.

(** Bob subscribes again under "a": what Alice holds is not touched. *)
Lemma other_clients_witness :
  sound (next_ref st2) (subscriptions st2) /\ alice <> bob /\
  filter (owned_by alice)
    (Subscriptions.subscribersOf
       (subscriptions (state_of (run (onMessage bob subscribe_a) st2)))
       "articles") =
  filter (owned_by alice)
    (Subscriptions.subscribersOf (subscriptions st2) "articles").
Proof.
  assert (N : alice <> bob) by discriminate.
  split; [exact st2_sound|]. split; [exact N|].
  exact (message_leaves_other_clients_alone bob subscribe_a st2 alice
           "articles" st2_sound N).
Defined.

(** Bob, who is no admin, subscribes to a collection nobody knows. *)
Lemma invalid_collection_witness :
  getSchema (world st2) = (inr schema0, db0) /\
  is_admin (accountability st2 bob) = false /\
  collections schema0 "drafts" = false /\
  run (onMessage bob (SUBSCRIBE "drafts" None None (Some "a"))) st2 =
  (Ok tt, with_world db0 st2,
   [CallGetSchema;
    HandleException bob
      (WebSocketException "subscribe" "INVALID_COLLECTION"
         "The provided collection does not exists or is not accessible."
         (Some "a"))
      "subscribe"]).
Proof.
  split; [reflexivity|]. split; [reflexivity|]. split; [reflexivity|].
  exact (invalid_collection_is_rejected bob "drafts" None None (Some "a")
           st2 schema0 db0 eq_refl eq_refl eq_refl).
Defined.

(** Alice subscribes again under "a" with a query that does not sanitize:
    her subscription "a" stays. *)
Lemma early_failure_witness :
  let c := alice in
  let st := Strict.st_a in
  let q := Some [("limit", JNum 5)] in
  let r :=
    @run Strict.strict unit
      (@onMessage Strict.strict c (SUBSCRIBE "articles" None q (Some "a"))) st in
  ((exists x w1, @getSchema Strict.strict (world st) = (inl x, w1)) \/
   (exists sch w1 raw x,
      @getSchema Strict.strict (world st) = (inr sch, w1) /\
      valid_collection (accountability st c) sch "articles" = true /\
      q = Some raw /\
      @sanitizeQuery Strict.strict raw (accountability st c) = inl x)) /\
  (result_of r = Ok tt /\
   subscriptions (state_of r) = subscriptions st /\
   accountability (state_of r) = accountability st /\
   exists x,
     trace_of r = [CallGetSchema; HandleException c (Thrown x) "subscribe"]).
Proof.
  intros c st q r.
  assert (H : (exists x w1, @getSchema Strict.strict (world st) = (inl x, w1)) \/
              (exists sch w1 raw x,
                 @getSchema Strict.strict (world st) = (inr sch, w1) /\
                 valid_collection (accountability st c) sch "articles" = true /\
                 q = Some raw /\
                 @sanitizeQuery Strict.strict raw (accountability st c)
                   = inl x)).
  { right. exists schema0, db0, [("limit", JNum 5)], "INVALID_QUERY".
    repeat split. }
  split; [exact H|].
  exact (@early_failure_keeps_the_registry Strict.strict
           c "articles" None q (Some "a") st H).
Defined.

(** Alice subscribes to the articles. *)
Lemma collection_subscribe_witness :
  let c := alice in
  let st := st0 in
  let data := [("event", JStr "init"); ("payload", JArr [])] in
  let t := [CallReadByQuery "articles" schema0 None []] in
  let s := candidate st c "articles" None None (Some "a") in
  let r := run (onMessage c subscribe_a) st in
  getSchema (world st) = (inr schema0, db0) /\
  valid_collection (accountability st c) schema0 "articles" = true /\
  sanitized None (accountability st c) None /\
  refs_below (next_ref st) (subscriptions st) /\
  reads s (accountability st c) schema0 "init" db0 = (Ok data, db0, t) /\
  (trace_of r
     = CallGetSchema :: t ++ [Send c (fmtMessage "subscription" data (Some "a"))] /\
   pushes (trace_of r) = [(c, fmtMessage "subscription" data (Some "a"))] /\
   responses (trace_of r) = [c] /\
   prop data "event" = JStr "init" /\
   (exists w,
      readByQuery "articles" schema0 (accountability st c) (query_of s) db0
        = (inr (prop data "payload"), w)) /\
   In s (Subscriptions.subscribersOf (subscriptions (state_of r)) "articles")).
Proof.
  intros c st data t s r.
  assert (B : refs_below (next_ref st) (subscriptions st))
    by (apply refs_ok_below; reflexivity).
  split; [reflexivity|]. split; [reflexivity|]. split; [reflexivity|].
  split; [exact B|]. split; [reflexivity|].
  exact (collection_subscribe_pushes_init c "articles" None (Some "a") st
           schema0 db0 None data db0 t eq_refl eq_refl eq_refl B eq_refl
           eq_refl).
Defined.

(** The payload of a subscription that asks for the meta. *)
Lemma payload_witness :
  let s := with_meta in
  let res :=
    [("event", JStr "update"); ("payload", JArr []); ("meta", JObj [])] in
  let t := [CallReadByQuery "articles" schema0 None [("meta", JStr "*")];
            CallGetMeta "articles" schema0 None [("meta", JStr "*")]] in
  run (getPayload s None schema0 "update") st0 = (Ok res, with_world db0 st0, t) /\
  (JsObject.keys res =
     (if JsObject.has "meta" (query_of s)
      then ["event"; "payload"; "meta"] else ["event"; "payload"]) /\
   prop res "event" = JStr "update" /\
   t = read_call s None schema0 ::
       (if JsObject.has "meta" (query_of s)
        then [meta_call s None schema0] else []) /\
   with_world db0 st0 = with_world (world (with_world db0 st0)) (with_world db0 st0)).
Proof.
  intros s res t. split; [reflexivity|].
  exact (payload_has_event_payload_and_meta s None schema0 "update" st0
           res (with_world db0 st0) t eq_refl).
Defined.

(** An update of article 7 is served like an update of article 42. *)
Lemma dispatch_ignores_keys_witness :
  event_action updated42 = event_action updated7 /\
  event_collection updated42 = event_collection updated7 /\
  run (dispatch updated42) st_watching = run (dispatch updated7) st_watching.
Proof.
  split; [reflexivity|]. split; [reflexivity|].
  exact (dispatch_ignores_keys_and_payload updated42 updated7 st_watching
           eq_refl eq_refl).
Defined.

(** Carol has no subscription to the articles. *)
Lemma dispatch_touches_witness :
  let st' := state_of (run (dispatch deleted42) st_deleted) in
  (forall s,
     In s (Subscriptions.subscribersOf (subscriptions st_deleted)
             (event_collection deleted42)) -> client s <> carol) /\
  (accountability st' carol = accountability st_deleted carol /\
   subscriptions st' = subscriptions st_deleted /\
   next_ref st' = next_ref st_deleted).
Proof.
  intros st'.
  assert (H : forall s,
             In s (Subscriptions.subscribersOf (subscriptions st_deleted)
                     (event_collection deleted42)) -> client s <> carol).
  { intros s [<-|[<-|[]]]; discriminate. }
  split; [exact H|].
  exact (dispatch_touches_only_its_clients deleted42 st_deleted carol H).
Defined.

(** The update of a file is published once. *)
Lemma mutation_published_witness :
  let args := [("keys", JArr [JNum 1]); ("collection", JStr "directus_files")] in
  NoDup modules /\ In "files" modules /\
  exists h,
    In h (bindModules modules) /\
    hook_event h = ("files" ++ "." ++ action_name update)%string /\
    run (emitAction (bindModules modules)
           ("files" ++ "." ++ action_name update) args) st0
      = (Ok tt, st0, [Publish "websocket.event" (hook_message h args)]).
Proof.
  intros args.
  assert (I : In "files" modules) by (simpl; tauto).
  split; [exact modules_distinct|]. split; [exact I|].
  exact (mutation_is_published_once modules "files" update args st0
           modules_distinct I).
Defined.

(** The deletion of article 42 reaches Alice and Bob, who subscribed to the
    articles. *)
Lemma dispatch_reaches_witness :
  let ev := deleted42 in
  let st := st_deleted in
  accepts (subscriptions st) (event_collection ev) = true /\
  let subs :=
    Subscriptions.subscribersOf (subscriptions st) (event_collection ev) in
  exists st' t,
    run (dispatch ev) st = (Ok tt, st', t) /\
    subscriptions st' = subscriptions st /\
    Forall (fun e => exists s, In s subs /\ about s e) t /\
    responses t = map client subs /\
    (subs = [] -> st' = st /\ t = []) /\
    (forall st2,
       accepts (subscriptions st2) (event_collection ev) = true ->
       Subscriptions.subscribersOf (subscriptions st2) (event_collection ev)
         = subs ->
       accountability st2 = accountability st -> world st2 = world st ->
       trace_of (run (dispatch ev) st2) = t) /\
    (keyed (subscriptions st) ->
     Forall (reads_only (event_collection ev)) t).
Proof.
  intros ev st. split; [reflexivity|].
  exact (dispatch_reaches_only_its_collection ev st eq_refl).
Defined.

(** The article Alice watches is gone: her payload fails with the read. *)
Lemma payload_failure_witness :
  let s := alice_watch in
  readOne (collection s) schema0 None (KNum 42) (query_of s) (world st_deleted)
    = (inl "FORBIDDEN", db_deleted) /\
  run (getPayload s None schema0 "delete") st_deleted
    = (Throw (Thrown "FORBIDDEN"), with_world db_deleted st_deleted,
       [read_call s None schema0]).
Proof.
  intros s. split; [reflexivity|].
  exact (proj1 (payload_fails_with_its_read_or_its_meta s None schema0
                  "delete" st_deleted)
           "FORBIDDEN" db_deleted eq_refl).
Defined.

End DemoFacts.
